(** * Sinilink amplifier integration: command frames, BLE session, media player

    A shallow embedding of [custom_components/sinilink/sinilink.py] and of the
    volume and mute handlers of [custom_components/sinilink/media_player.py].

    - Frames are [list byte]; integers are [Z]; [int.to_bytes(1, 'big')] and
      [bytes.fromhex] are partial and return [option].
    - The BLE stack (Home Assistant resolution and the bleak GATT client) is an
      oracle: each of its answers is a function of the number of interactions
      performed so far, so successive calls may answer differently and a
      theorem quantified over the oracle covers every behaviour of the link.
    - Methods of [SinilinkInstance] are computations in a small state and
      exception monad that also records every interaction and every log
      record, in program order. *)

From Stdlib Require Import ZArith List String Ascii Bool Lia.
From Stdlib Require Import Init.Byte.
From Stdlib Require Floats.SpecFloat.
Import ListNotations.

Local Open Scope Z_scope.

(** ** Bytes *)

Module Bytes.

Definition byte_to_Z (b : byte) : Z := Z.of_N (Byte.to_N b).

(** [n.to_bytes(1, 'big')]: one byte, [OverflowError] outside [0, 255]. *)
Definition to_bytes1 (n : Z) : option (list byte) :=
  if (0 <=? n) && (n <? 256)
  then match Byte.of_N (Z.to_N n) with
       | Some b => Some [b]
       | None => None
       end
  else None.

Definition hex_digit (c : ascii) : option N :=
  let n := N_of_ascii c in
  if ((48 <=? n) && (n <=? 57))%N then Some (n - 48)%N
  else if ((97 <=? n) && (n <=? 102))%N then Some (n - 87)%N
  else if ((65 <=? n) && (n <=? 70))%N then Some (n - 55)%N
  else None.

(** [bytes.fromhex(s)] on a string without blanks: two hexadecimal digits per
    byte, [ValueError] ([None]) otherwise. *)
Fixpoint fromhex (s : string) : option (list byte) :=
  match s with
  | EmptyString => Some []
  | String hi (String lo rest) =>
      match hex_digit hi, hex_digit lo, fromhex rest with
      | Some h, Some l, Some bs =>
          match Byte.of_N (16 * h + l) with
          | Some b => Some (b :: bs)
          | None => None
          end
      | _, _, _ => None
      end
  | String _ EmptyString => None
  end.

End Bytes.

(** ** CRC-8/MAXIM *)

Module Crc.

Import Bytes.

(** Reverse the lowest [width] bits of [value]. *)
Fixpoint reflect_from (width : nat) (value : Z) (acc : Z) : Z :=
  match width with
  | O => acc
  | S w => reflect_from w (Z.shiftr value 1)
             (Z.lor (Z.shiftl acc 1) (Z.land value 1))
  end.

Definition reflectbitorder (width : nat) (value : Z) : Z :=
  reflect_from width value 0.

Definition poly : Z := 0x31.
Definition initvalue : Z := 0x00.
Definition xor_output : Z := 0x00.

Definition shift_step (crc : Z) : Z :=
  if Z.testbit crc 7
  then Z.lxor (Z.shiftl crc 1) poly
  else Z.shiftl crc 1.

Fixpoint iter_n {A} (n : nat) (f : A -> A) (x : A) : A :=
  match n with
  | O => x
  | S k => iter_n k f (f x)
  end.

(** One input byte of the register update: the byte is reflected, folded into
    the register, shifted out most significant bit first, and the register is
    masked back to eight bits. *)
Definition process_byte (crc : Z) (b : byte) : Z :=
  let crc := Z.lxor crc (reflectbitorder 8 (byte_to_Z b)) in
  Z.land (iter_n 8 shift_step crc) 0xFF.

Definition process (crc : Z) (data : list byte) : Z :=
  fold_left process_byte data crc.

Definition final (crc : Z) : Z :=
  Z.lxor (reflectbitorder 8 crc) xor_output.

(** Modelled from the spec: the checksum object [Crc8Maxim] comes from the
    [crccheck] package, which is not among the sources.  The model is the
    CRC-8/MAXIM of the specification: width 8, polynomial 0x31, initial value
    0x00, input and output reflected, final xor 0x00. *)
Definition Crc8Maxim (data : list byte) : Z :=
  final (process initvalue data).

(** [crcinst.finalbytes()]: the register as one byte. *)
Definition finalbytes (data : list byte) : option (list byte) :=
  to_bytes1 (Crc8Maxim data).

(** The same checksum in its usual 1-Wire form: least significant bit first
    with the reflected polynomial 0x8C and no explicit reflection. *)
Definition lsb_step (crc : Z) : Z :=
  if Z.testbit crc 0
  then Z.lxor (Z.shiftr crc 1) 0x8C
  else Z.shiftr crc 1.

Definition lsb_byte (crc : Z) (b : byte) : Z :=
  iter_n 8 lsb_step (Z.lxor crc (byte_to_Z b)).

Definition crc8_maxim_lsb (data : list byte) : Z :=
  fold_left lsb_byte data 0.

(** The byte values, for checks by enumeration. *)
Definition below256 : list Z := map Z.of_nat (seq 0 256).

Definition in_byte_range (n : Z) : bool := (0 <=? n) && (n <? 256).

(** The register of the byte-reflecting form is the mirror image of the
    register of the 1-Wire form after one more input byte. *)
Definition mirror_step_ok (crc b : Z) : bool :=
  match Byte.of_N (Z.to_N b) with
  | Some x =>
      reflectbitorder 8 (process_byte (reflectbitorder 8 crc) x)
      =? lsb_byte crc x
  | None => false
  end.

End Crc.

(** ** The BLE stack as seen by the integration *)

Module Ble.

(** A [BleakClient] object is identified by its allocation number. *)
Definition handle := nat.

(** Exception classes the code can meet.  All are subclasses of [Exception];
    [except BleakError] catches the first only. *)
Inductive exn :=
| BleakError
| AttributeError
| OverflowError
| ValueError
| OtherException.

(** What [bluetooth.async_ble_device_from_address] returns when it finds
    the device. *)
Record BLEDevice := { name : string; address : string }.

Inductive level := DEBUG | INFO | WARNING | ERROR.

(** Interactions with the BLE stack and log records, as they happen. *)
Inductive event :=
| EvLog (lvl : level) (msg : string)
| EvIsConnected (h : handle) (b : bool)
| EvResolve (r : option BLEDevice)
| EvNewClient (h : handle)
| EvConnect (h : handle) (r : option exn)
| EvSleep
| EvWrite (h : handle) (payload : list byte) (r : option exn)
| EvDisconnect (h : handle) (r : option exn).

(** The oracle.  The first argument of each answer is the number of
    interactions with the stack performed before the call. *)
Record Transport := {
  is_connected_at : nat -> handle -> bool;
  resolve_at : nat -> option BLEDevice;
  connect_at : nat -> handle -> option exn;
  write_at : nat -> handle -> list byte -> option exn;
  disconnect_at : nat -> handle -> option exn
}.

End Ble.

(** ** State and exception monad with a trace *)

Module Run.

Import Ble.

(** Fields of [SinilinkInstance].  [_volume] is compared with [None] by
    [turn_on], so it is an optional integer. *)
Record SinilinkInstance := {
  _mac : string;
  _device : option handle;
  _is_on : bool;
  _volume : option Z
}.

Record St := {
  self : SinilinkInstance;
  clock : nat;
  next_handle : handle
}.

Inductive outcome (A : Type) :=
| Return (a : A)
| Raise (e : exn).
Arguments Return {A} a.
Arguments Raise {A} e.

Record Res (A : Type) := {
  out : outcome A;
  st : St;
  evs : list event
}.
Arguments out {A} r.
Arguments st {A} r.
Arguments evs {A} r.
Arguments Build_Res {A} out st evs.

Definition M (A : Type) := St -> Res A.

Definition ret {A} (a : A) : M A :=
  fun s => {| out := Return a; st := s; evs := [] |}.

Definition raise {A} (e : exn) : M A :=
  fun s => {| out := Raise e; st := s; evs := [] |}.

Definition bind {A B} (m : M A) (k : A -> M B) : M B :=
  fun s =>
    match m s with
    | {| out := Return a; st := s1; evs := e1 |} =>
        match k a s1 with
        | {| out := o; st := s2; evs := e2 |} =>
            {| out := o; st := s2; evs := e1 ++ e2 |}
        end
    | {| out := Raise e; st := s1; evs := e1 |} =>
        {| out := Raise e; st := s1; evs := e1 |}
    end.

(** [try: m except Exception as e: handler e]. *)
Definition try_except {A} (m : M A) (handler : exn -> M A) : M A :=
  fun s =>
    match m s with
    | {| out := Return a; st := s1; evs := e1 |} =>
        {| out := Return a; st := s1; evs := e1 |}
    | {| out := Raise e; st := s1; evs := e1 |} =>
        match handler e s1 with
        | {| out := o; st := s2; evs := e2 |} =>
            {| out := o; st := s2; evs := e1 ++ e2 |}
        end
    end.

Definition lift {A} (e : exn) (o : option A) : M A :=
  match o with
  | Some a => ret a
  | None => raise e
  end.

Definition emit (e : event) : M unit :=
  fun s => {| out := Return tt; st := s; evs := [e] |}.

Definition tick : M nat :=
  fun s => {| out := Return (clock s);
              st := {| self := self s; clock := S (clock s);
                       next_handle := next_handle s |};
              evs := [] |}.

Definition fresh_handle : M handle :=
  fun s => {| out := Return (next_handle s);
              st := {| self := self s; clock := clock s;
                       next_handle := S (next_handle s) |};
              evs := [] |}.

Definition get_self : M SinilinkInstance :=
  fun s => {| out := Return (self s); st := s; evs := [] |}.

Definition put_self (i : SinilinkInstance) : M unit :=
  fun s => {| out := Return tt;
              st := {| self := i; clock := clock s;
                       next_handle := next_handle s |};
              evs := [] |}.

End Run.

Declare Scope py_scope.
Delimit Scope py_scope with py.
Notation "x <- m ;; k" := (Run.bind m (fun x => k))
  (at level 100, m at next level, right associativity) : py_scope.
Notation "m ;; k" := (Run.bind m (fun _ => k))
  (at level 100, right associativity) : py_scope.

(** ** sinilink.py *)

Module Sinilink.

Import Bytes Ble Run.
Local Open Scope py_scope.
Local Open Scope string_scope.

Definition WRITE_UUID : string := "0000ae10-0000-1000-8000-00805f9b34fb".

(** [SinilinkInstance.__init__]. *)
Definition init (mac : string) : SinilinkInstance :=
  {| _mac := mac; _device := None; _is_on := false; _volume := Some 0 |}.

Definition set_device (d : option handle) : M unit :=
  i <- get_self ;;
  put_self {| _mac := _mac i; _device := d;
              _is_on := _is_on i; _volume := _volume i |}.

Definition set_is_on (b : bool) : M unit :=
  i <- get_self ;;
  put_self {| _mac := _mac i; _device := _device i;
              _is_on := b; _volume := _volume i |}.

Definition set_volume_field (v : option Z) : M unit :=
  i <- get_self ;;
  put_self {| _mac := _mac i; _device := _device i;
              _is_on := _is_on i; _volume := v |}.

Definition log (lvl : level) (msg : string) : M unit := emit (EvLog lvl msg).

(** [format(x, ' 03x')]: a blank for the sign, then two hexadecimal digits. *)
Definition hex_char (n : N) : ascii :=
  if (n <? 10)%N then ascii_of_N (48 + n) else ascii_of_N (87 + n).

Definition format_03x (b : byte) : string :=
  let n := Byte.to_N b in
  String " " (String (hex_char (n / 16)) (String (hex_char (n mod 16)) "")).

Definition dump (data : list byte) : string :=
  fold_right (fun b s => format_03x b ++ s) "" data.

Section Methods.

Variable T : Transport.

(** *** Calls into the BLE stack *)

(** [client.is_connected]. *)
Definition is_connected (h : handle) : M bool :=
  t <- tick ;;
  let b := is_connected_at T t h in
  emit (EvIsConnected h b) ;;
  ret b.

(** [bluetooth.async_ble_device_from_address(hass, mac, connectable=True)]. *)
Definition async_ble_device_from_address : M (option BLEDevice) :=
  t <- tick ;;
  let r := resolve_at T t in
  emit (EvResolve r) ;;
  ret r.

(** [BleakClient(ble_device)]. *)
Definition BleakClient (d : BLEDevice) : M handle :=
  h <- fresh_handle ;;
  emit (EvNewClient h) ;;
  ret h.

Definition answer (r : option exn) : M unit :=
  match r with
  | None => ret tt
  | Some e => raise e
  end.

(** [await client.connect(timeout=20)]. *)
Definition client_connect (h : handle) : M unit :=
  t <- tick ;;
  let r := connect_at T t h in
  emit (EvConnect h r) ;;
  answer r.

(** [await asyncio.sleep(1)]. *)
Definition sleep : M unit := emit EvSleep.

(** [await client.write_gatt_char(WRITE_UUID, payload)]. *)
Definition write_gatt_char (h : handle) (payload : list byte) : M unit :=
  t <- tick ;;
  let r := write_at T t h payload in
  emit (EvWrite h payload r) ;;
  answer r.

(** [await client.disconnect()]. *)
Definition client_disconnect (h : handle) : M unit :=
  t <- tick ;;
  let r := disconnect_at T t h in
  emit (EvDisconnect h r) ;;
  answer r.

(** [self._device.<method>]: an attribute of [None] raises. *)
Definition on_device {A} (f : handle -> M A) : M A :=
  i <- get_self ;;
  match _device i with
  | Some h => f h
  | None => raise AttributeError
  end.

(** [self._device and self._device.is_connected]. *)
Definition device_is_connected : M bool :=
  i <- get_self ;;
  match _device i with
  | Some h => is_connected h
  | None => ret false
  end.

(** [try: body except BleakError: pass except Exception: pass]. *)
Definition swallow (body : M unit) : M unit :=
  try_except body (fun _ => ret tt).

(** *** [connect] *)

Definition connect : M bool :=
  log DEBUG "Attempting to connect to %s" ;;
  c <- device_is_connected ;;
  if c then
    log DEBUG "Already connected to %s" ;;
    ret true
  else
    ble_device <- async_ble_device_from_address ;;
    match ble_device with
    | None =>
        log ERROR "Device with MAC %s not found by Home Assistant Bluetooth" ;;
        i <- get_self ;;
        match _device i with
        | Some _ =>
            swallow (c <- on_device is_connected ;;
                     if c then on_device client_disconnect else ret tt) ;;
            set_device None
        | None => ret tt
        end ;;
        ret false
    | Some dev =>
        log DEBUG "Found BLEDevice for %s: %s (%s)" ;;
        if String.eqb (address dev) "" then
          log ERROR "BLEDevice for %s has no address. Cannot connect" ;;
          set_device None ;;
          ret false
        else
          h <- BleakClient dev ;;
          set_device (Some h) ;;
          ok <- try_except
                  (on_device client_connect ;;
                   sleep ;;
                   c <- on_device is_connected ;;
                   if c then
                     log INFO "Successfully connected to %s" ;;
                     ret true
                   else
                     log ERROR "Connection attempt to %s finished, but device is not connected" ;;
                     ret false)
                  (fun e =>
                     match e with
                     | BleakError =>
                         log ERROR "BleakError during connect to %s: %s"
                     | _ =>
                         log ERROR "Unexpected error during connect to %s: %s"
                     end ;;
                     ret false) ;;
          if ok then ret true
          else
            i <- get_self ;;
            match _device i with
            | Some _ => swallow (on_device client_disconnect)
            | None => ret tt
            end ;;
            set_device None ;;
            ret false
    end.

(** *** [disconnect] *)

Definition disconnect : M unit :=
  log DEBUG "Disconnecting from %s" ;;
  c <- device_is_connected ;;
  (if c then
     try_except
       (on_device client_disconnect ;;
        log INFO "Successfully disconnected from %s")
       (fun e =>
          match e with
          | BleakError => log WARNING "BleakError during disconnect from %s: %s"
          | _ => log WARNING "Unexpected error during disconnect from %s: %s"
          end)
   else ret tt) ;;
  set_device None ;;
  log DEBUG "Client instance for %s cleared".

(** *** [_send] *)

Definition _send (data : list byte) : M unit :=
  log DEBUG (dump data) ;;
  c <- device_is_connected ;;
  ready <- (if c then ret true
            else
              log DEBUG "Device %s not connected, attempting to connect" ;;
              ok <- connect ;;
              if ok then ret true
              else
                log ERROR "Failed to connect to %s before sending data. Aborting send" ;;
                ret false) ;;
  if ready then
    crc <- lift OverflowError (Crc.finalbytes data) ;;
    let payload := (data ++ crc)%list in
    try_except
      (on_device (fun h => write_gatt_char h payload))
      (fun e =>
         match e with
         | BleakError =>
             log WARNING "BleakError during write to %s: %s. Attempting to reconnect and retry" ;;
             ok <- connect ;;
             if ok then
               log DEBUG "Reconnected to %s successfully. Retrying write" ;;
               try_except
                 (on_device (fun h => write_gatt_char h payload))
                 (fun e_retry =>
                    match e_retry with
                    | BleakError =>
                        log ERROR "BleakError on retry write to %s after reconnect: %s"
                    | _ =>
                        log ERROR "Unexpected error on retry write to %s after reconnect: %s"
                    end)
             else
               log ERROR "Failed to reconnect to %s after write error"
         | _ =>
             log ERROR "Unexpected error during write to %s: %s"
         end)
  else ret tt.

(** *** Commands *)

(** [int(n / 5)]: true division, then truncation toward zero.  The quotient
    of an integer below 2^51 in magnitude by 5 is either an integer or at
    least 1/5 away from one, so rounding it to a float never reaches the next
    integer and the truncation is the integer quotient. *)
Definition int_div5 (n : Z) : Z := Z.quot n 5.

Definition set_volume (intensity : Z) : M unit :=
  let volume := int_div5 intensity in
  header <- lift ValueError (fromhex "7e0f1d") ;;
  command <- lift OverflowError (to_bytes1 volume) ;;
  params <- lift ValueError (fromhex "00000000000000000000") ;;
  sufix <- lift OverflowError (to_bytes1 (volume + 170)) ;;
  _send (header ++ command ++ params ++ sufix)%list ;;
  set_volume_field (Some intensity).

Definition turn_on : M unit :=
  set_is_on true ;;
  i <- get_self ;;
  let volume := match _volume i with
                | Some v => int_div5 v
                | None => 7
                end in
  header <- lift ValueError (fromhex "7e0f1d") ;;
  command <- lift OverflowError (to_bytes1 volume) ;;
  params <- lift ValueError (fromhex "00000000000000000000") ;;
  sufix <- lift OverflowError (to_bytes1 (volume + 170)) ;;
  _send (header ++ command ++ params ++ sufix)%list.

Definition turn_off : M unit :=
  set_is_on false ;;
  header <- lift ValueError (fromhex "7e0f1d") ;;
  command <- lift ValueError (fromhex "00") ;;
  params <- lift ValueError (fromhex "00000000000000000000") ;;
  sufix <- lift ValueError (fromhex "aa") ;;
  _send (header ++ command ++ params ++ sufix)%list.

Definition bluetooth : M unit :=
  command <- lift ValueError (fromhex "7e05140097") ;;
  _send command.

Definition aux : M unit :=
  command <- lift ValueError (fromhex "7e05160099") ;;
  _send command.

End Methods.

End Sinilink.

(** ** Observations on a trace *)

Module Trace.

Import Ble.

Definition is_write (e : event) : bool :=
  match e with EvWrite _ _ _ => true | _ => false end.

Definition is_gatt_connect (e : event) : bool :=
  match e with EvConnect _ _ => true | _ => false end.

Definition is_resolve (e : event) : bool :=
  match e with EvResolve _ => true | _ => false end.

Definition is_log (lvl : level) (msg : string) (e : event) : bool :=
  match e, lvl with
  | EvLog DEBUG m, DEBUG | EvLog INFO m, INFO
  | EvLog WARNING m, WARNING | EvLog ERROR m, ERROR => String.eqb m msg
  | _, _ => false
  end.

(** Entering [connect] leaves this record first. *)
Definition is_connect_call : event -> bool :=
  is_log DEBUG "Attempting to connect to %s"%string.

(** [connect] leaves one of these two records exactly when it returns
    [True]. *)
Definition is_connect_success (e : event) : bool :=
  is_log DEBUG "Already connected to %s"%string e
  || is_log INFO "Successfully connected to %s"%string e.

Definition is_delivery (e : event) : bool :=
  match e with EvWrite _ _ None => true | _ => false end.

Definition count (p : event -> bool) (l : list event) : nat :=
  List.length (filter p l).

(** Payloads of the write attempts, in order. *)
Fixpoint writes (l : list event) : list (list byte) :=
  match l with
  | [] => []
  | EvWrite _ p _ :: l' => p :: writes l'
  | _ :: l' => writes l'
  end.

(** A frame reached the amplifier: some write returned without error. *)
Definition delivered (l : list event) : bool := existsb is_delivery l.

Definition connected_ok (l : list event) : bool := existsb is_connect_success l.

(** The answer to the first write attempt, and what happened after it. *)
Fixpoint after_first_write (l : list event)
  : option (option exn * list event) :=
  match l with
  | [] => None
  | EvWrite _ _ r :: l' => Some (r, l')
  | _ :: l' => after_first_write l'
  end.

End Trace.

(** ** Python floats *)

Module PyFloat.

Import SpecFloat Ble Run.

(** A Python [float] is an IEEE 754 binary64 number. *)
Definition prec : Z := 53.
Definition emax : Z := 1024.

Definition float := spec_float.

(** [float(n)] for an integer [n], rounded to nearest even;
    [OverflowError] when it does not fit. *)
Definition of_int (n : Z) : M float :=
  match binary_normalize prec emax n 0 false with
  | S754_infinity _ => raise OverflowError
  | x => ret x
  end.

(** [x * y] on floats. *)
Definition mul (x y : float) : float := SFmul prec emax x y.

(** [int(x)]: truncation toward zero; [ValueError] on a NaN and
    [OverflowError] on an infinity. *)
Definition to_int (x : float) : M Z :=
  match x with
  | S754_zero _ => ret 0
  | S754_finite s m e => ret (cond_Zopp s (Z.shiftl (Zpos m) e))
  | S754_infinity _ => raise OverflowError
  | S754_nan => raise ValueError
  end.

(** The literal [0.2]. *)
Definition lit_0_2 : float := S754_finite false 7205759403792794 (-55).

Definition zero : float := S754_zero false.
Definition one : float := S754_finite false 4503599627370496 (-52).

(** The float [255.0]. *)
Definition f255 : float := S754_finite false 8972014882652160 (-45).

(** [int(v * 255)] as a number, for a product that is finite. *)
Definition level_units (v : float) : Z :=
  match mul v f255 with
  | S754_finite s m e => cond_Zopp s (Z.shiftl (Zpos m) e)
  | _ => 0
  end.

(** The record [r] is what is left of the mantissa [P] after [k] right
    shifts: its mantissa is the quotient and its two flags are clear when
    nothing was shifted out. *)
Definition shifted (P k : Z) (r : shr_record) : Prop :=
  0 <= shr_m r
  /\ exists rem, P = shr_m r * 2 ^ k + rem /\ 0 <= rem < 2 ^ k
                 /\ (rem = 0 -> shr_r r = false /\ shr_s r = false).

(** A float between 0 and 255: a zero, or a positive mantissa at a
    non-positive exponent whose value is at most 255. *)
Definition capped (x : float) : Prop :=
  (exists s, x = S754_zero s)
  \/ exists m e, x = S754_finite false m e
                 /\ e <= 0 /\ Zpos m <= 255 * 2 ^ (- e).

(** [0.0 <= x <= 1.0] for a well-formed [x]. *)
Definition unit_interval (x : float) : Prop :=
  valid_binary prec emax x = true
  /\ SFleb zero x = true
  /\ SFleb x one = true.

End PyFloat.

(** ** media_player.py *)

Module MediaPlayer.

Import Ble Run.
Local Open Scope py_scope.

(** Fields of the entity [SinilinkAmplifier] used by the volume handlers; the
    [_amp] object is the [SinilinkInstance] of the run state. *)
Record SinilinkAmplifier := {
  _name : string;
  _muted : bool;
  _media_volume_level : PyFloat.float;
  _volume_max : Z
}.

(** [SinilinkAmplifier.__init__]. *)
Definition init (name : string) : SinilinkAmplifier :=
  {| _name := name; _muted := false;
     _media_volume_level := PyFloat.lit_0_2; _volume_max := 255 |}.

Section Handlers.

Variable T : Transport.

(** [int(level * self._volume_max)]. *)
Definition scaled (level : PyFloat.float) (volume_max : Z) : M Z :=
  m <- PyFloat.of_int volume_max ;;
  PyFloat.to_int (PyFloat.mul level m).

Definition async_set_volume_level (volume : PyFloat.float)
  (e : SinilinkAmplifier) : M SinilinkAmplifier :=
  n <- scaled volume (_volume_max e) ;;
  Sinilink.log WARNING "Set volume %s, %s" ;;
  Sinilink.set_volume T n ;;
  ret {| _name := _name e; _muted := _muted e;
         _media_volume_level := volume; _volume_max := _volume_max e |}.

Definition async_mute_volume (mute : bool)
  (e : SinilinkAmplifier) : M SinilinkAmplifier :=
  n <- scaled (_media_volume_level e) (_volume_max e) ;;
  Sinilink.set_volume T (n * Z.b2z mute) ;;
  ret {| _name := _name e; _muted := mute;
         _media_volume_level := _media_volume_level e;
         _volume_max := _volume_max e |}.

End Handlers.

End MediaPlayer.

(** ** Postconditions and sample links *)

Module Post.

Import Bytes Ble Run Trace.

(** The instance fields other than the connection handle. *)
Definition same_cache (s s' : St) : Prop :=
  _mac (self s') = _mac (self s)
  /\ _is_on (self s') = _is_on (self s)
  /\ _volume (self s') = _volume (self s).

(** What one call of [connect] guarantees. *)
Record connect_post (s : St) (r : Res bool) : Prop := {
  cp_out : out r = Return (connected_ok (evs r));
  cp_dev : if connected_ok (evs r)
           then _device (self (st r)) <> None
           else _device (self (st r)) = None;
  cp_cache : same_cache s (st r);
  cp_writes : writes (evs r) = [];
  cp_calls : count is_connect_call (evs r) = 1%nat;
  cp_gatt : (count is_gatt_connect (evs r) <= 1)%nat;
  cp_resolve : (count is_resolve (evs r) <= 1)%nat
}.

(** The checksum byte [_send] appends to [data]. *)
Definition crc_byte (data : list byte) : byte :=
  match Byte.of_N (Z.to_N (Crc.Crc8Maxim data)) with
  | Some b => b
  | None => x00
  end.

(** What the part of a [_send] after its first write attempt looks like,
    given the answer [r] to that attempt. *)
Definition retry_shape (r : option exn) (rest : list event) : Prop :=
  match r with
  | Some BleakError =>
      count is_connect_call rest = 1%nat
      /\ (count is_resolve rest <= 1)%nat
      /\ (count is_gatt_connect rest <= 1)%nat
      /\ count is_write rest = (if connected_ok rest then 1 else 0)%nat
  | _ =>
      count is_connect_call rest = 0%nat
      /\ count is_resolve rest = 0%nat
      /\ count is_gatt_connect rest = 0%nat
      /\ count is_write rest = 0%nat
  end.

(** What one call of [_send data] guarantees. *)
Record send_post (data : list byte) (s : St) (r : Res unit) : Prop := {
  sp_out : out r = Return tt;
  sp_cache : same_cache s (st r);
  sp_payload : Forall (eq (data ++ [crc_byte data])) (writes (evs r));
  sp_writes : (count is_write (evs r) <= 2)%nat;
  sp_calls : (count is_connect_call (evs r) <= 2)%nat;
  sp_gatt : (count is_gatt_connect (evs r) <= 2)%nat;
  sp_resolve : (count is_resolve (evs r) <= 2)%nat;
  sp_retry : match after_first_write (evs r) with
             | Some (a, rest) => retry_shape a rest
             | None => delivered (evs r) = false
             end;
  sp_lost : count is_write (evs r) = 0%nat -> _device (self (st r)) = None
}.

(** The byte of value [n]. *)
Definition byte_of (n : Z) : byte :=
  match Byte.of_N (Z.to_N n) with
  | Some b => b
  | None => x00
  end.

(** Layout of a power or volume frame for a bucket: header [7e0f1d], the
    bucket, ten zero bytes, the suffix [(bucket + 170) mod 256]. *)
Definition volume_frame (bucket : Z) : list byte :=
  [x7e; x0f; x1d] ++ [byte_of bucket] ++ repeat x00 10
  ++ [byte_of ((bucket + 170) mod 256)].

(** The 15 bytes [turn_off] builds: header [7e0f1d], command byte [00], ten
    zero bytes, [aa]. *)
Definition poweroff_frame : list byte :=
  [x7e; x0f; x1d; x00; x00; x00; x00; x00; x00; x00; x00; x00; x00; x00; xaa].

(** The literals [7e05160099] and [7e05140097]. *)
Definition aux_literal : list byte := [x7e; x05; x16; x00; x99].
Definition bluetooth_literal : list byte := [x7e; x05; x14; x00; x97].

(** A frame followed by its checksum byte: what [_send] writes. *)
Definition with_crc (frame : list byte) : list byte :=
  frame ++ [crc_byte frame].

(** The command byte of a power or volume frame is its fourth byte. *)
Definition command_byte (payload : list byte) : Z :=
  byte_to_Z (nth 3 payload x00).

Definition with_is_on (b : bool) (s : St) : St :=
  {| self := {| _mac := _mac (self s); _device := _device (self s);
                _is_on := b; _volume := _volume (self s) |};
     clock := clock s; next_handle := next_handle s |}.

Definition with_volume (v : option Z) (s : St) : St :=
  {| self := {| _mac := _mac (self s); _device := _device (self s);
                _is_on := _is_on (self s); _volume := v |};
     clock := clock s; next_handle := next_handle s |}.

(** The result of a command that stores the volume after its send. *)
Definition store_volume (v : option Z) (r : Res unit) : Res unit :=
  {| out := out r; st := with_volume v (st r); evs := evs r |}.

(** The bucket [turn_on] puts in its frame. *)
Definition turn_on_bucket (s : St) : Z :=
  match _volume (self s) with
  | Some v => Sinilink.int_div5 v
  | None => 7
  end.

(** A command stopped by the range check of [to_bytes]. *)
Definition rejected (s : St) : Res unit :=
  {| out := Raise OverflowError; st := s; evs := [] |}.

(** The commands a caller can issue. *)
Inductive operation :=
| TurnOn
| TurnOff
| SetVolume (intensity : Z)
| SelectAux
| SelectBluetooth.

Definition perform (T : Transport) (op : operation) : M unit :=
  match op with
  | TurnOn => Sinilink.turn_on T
  | TurnOff => Sinilink.turn_off T
  | SetVolume intensity => Sinilink.set_volume T intensity
  | SelectAux => Sinilink.aux T
  | SelectBluetooth => Sinilink.bluetooth T
  end.

(** The only exception a command lets through is the range check of
    [to_bytes], raised before the BLE stack is touched. *)
Definition returns_or_rejects (r : Res unit) : Prop :=
  out r = Return tt \/ (out r = Raise OverflowError /\ evs r = []).

Local Open Scope string_scope.

Definition amplifier : BLEDevice :=
  {| name := "Sinilink-APP"; address := "AA:BB:CC:DD:EE:FF" |}.

(** A link on which everything succeeds. *)
Definition link_up : Transport :=
  {| is_connected_at := fun _ _ => true;
     resolve_at := fun _ => Some amplifier;
     connect_at := fun _ _ => None;
     write_at := fun _ _ _ => None;
     disconnect_at := fun _ _ => None |}.

(** The amplifier is out of range: resolution finds nothing. *)
Definition link_absent : Transport :=
  {| is_connected_at := fun _ _ => false;
     resolve_at := fun _ => None;
     connect_at := fun _ _ => Some BleakError;
     write_at := fun _ _ _ => Some BleakError;
     disconnect_at := fun _ _ => Some BleakError |}.

(** The link drops during the first write (interaction 3 of a first
    command) and comes back for the reconnect. *)
Definition link_flaky : Transport :=
  {| is_connected_at := fun t _ => negb (Nat.eqb t 4);
     resolve_at := fun _ => Some amplifier;
     connect_at := fun _ _ => None;
     write_at := fun t _ _ => if Nat.leb t 3 then Some BleakError else None;
     disconnect_at := fun _ _ => None |}.

(** The address used in the worked examples. *)
Definition mac0 : string := "AA:BB:CC:DD:EE:FF".



(** A freshly created instance before any interaction. *)
Definition fresh (mac : string) : St :=
  {| self := Sinilink.init mac; clock := 0%nat; next_handle := 0%nat |}.

End Post.

(** ** Further observations on traces and frames *)

Module Observe.

Import Bytes Ble Run Trace Post.

Definition is_new_client (e : event) : bool :=
  match e with EvNewClient _ => true | _ => false end.

Definition is_disconnect (e : event) : bool :=
  match e with EvDisconnect _ _ => true | _ => false end.

(** Everything but a log record touches the BLE stack or the clock of the
    event loop. *)
Definition is_interaction (e : event) : bool :=
  match e with EvLog _ _ => false | _ => true end.

(** The client an event is about, if it is about one. *)
Definition client_of (e : event) : option handle :=
  match e with
  | EvIsConnected h _ | EvNewClient h | EvConnect h _
  | EvWrite h _ _ | EvDisconnect h _ => Some h
  | EvLog _ _ | EvResolve _ | EvSleep => None
  end.

(** A GATT connection attempt or a client creation on another client than
    [h]. *)
Definition opens_other (h : handle) (e : event) : bool :=
  match e with
  | EvNewClient h' | EvConnect h' _ => negb (Nat.eqb h' h)
  | _ => false
  end.

Definition is_disconnect_of (h : handle) (e : event) : bool :=
  match e with EvDisconnect h' _ => Nat.eqb h' h | _ => false end.

Definition is_connect_ok_of (h : handle) (e : event) : bool :=
  match e with EvConnect h' None => Nat.eqb h' h | _ => false end.

(** Every write goes to the client that the most recent liveness answer
    reported connected.  [last] is that answer, if there was one. *)
Fixpoint writes_checked (last : option (handle * bool)) (l : list event)
  : bool :=
  match l with
  | [] => true
  | EvIsConnected h b :: l' => writes_checked (Some (h, b)) l'
  | EvWrite h _ _ :: l' =>
      match last with
      | Some (h', true) => Nat.eqb h h' && writes_checked last l'
      | _ => false
      end
  | _ :: l' => writes_checked last l'
  end.

(** The most recent liveness answer of a trace, [last] if it has none. *)
Fixpoint last_liveness (last : option (handle * bool)) (l : list event)
  : option (handle * bool) :=
  match l with
  | [] => last
  | EvIsConnected h b :: l' => last_liveness (Some (h, b)) l'
  | _ :: l' => last_liveness last l'
  end.

Definition byte_sum (l : list byte) : Z :=
  fold_right (fun b acc => byte_to_Z b + acc) 0 l.

(** The byte before the CRC is the sum of the bytes before it, modulo 256. *)
Definition additive_ok (payload : list byte) : Prop :=
  let n := (List.length payload - 2)%nat in
  byte_sum (firstn n payload) mod 256 = byte_to_Z (nth n payload x00).

(** The frames the commands hand to [_send]. *)
Definition sendable (frame : list byte) : Prop :=
  (exists b, 0 <= b <= 85 /\ frame = volume_frame b)
  \/ frame = aux_literal \/ frame = bluetooth_literal.

(** Resolution works but the amplifier refuses the connection. *)
Definition link_refused : Transport :=
  {| is_connected_at := fun _ _ => false;
     resolve_at := fun _ => Some amplifier;
     connect_at := fun _ _ => Some BleakError;
     write_at := fun _ _ _ => Some BleakError;
     disconnect_at := fun _ _ => Some OtherException |}.

(** The state after a sequence of commands, rejected ones included. *)
Fixpoint run_ops (T : Transport) (ops : list operation) (s : St) : St :=
  match ops with
  | [] => s
  | op :: rest => run_ops T rest (st (perform T op s))
  end.

(** The cached volume is one that [turn_on] can put in a frame. *)
Definition volume_in_range (s : St) : Prop :=
  exists v, _volume (self s) = Some v /\ -5 < v < 430.

(** How [connect] can end, over every answer of the stack. *)
Record connect_ways (s : St) (r : Res bool) : Prop := {
  cw_true :
    connected_ok (evs r) = true ->
    (_device (self (st r)) = _device (self s)
     /\ count is_new_client (evs r) = 0%nat
     /\ count is_resolve (evs r) = 0%nat
     /\ count is_gatt_connect (evs r) = 0%nat
     /\ count is_disconnect (evs r) = 0%nat)
    \/ (_device (self (st r)) = Some (next_handle s)
        /\ count is_new_client (evs r) = 1%nat
        /\ count is_resolve (evs r) = 1%nat
        /\ count (is_connect_ok_of (next_handle s)) (evs r) = 1%nat
        /\ count is_disconnect (evs r) = 0%nat);
  cw_false :
    connected_ok (evs r) = false ->
    (count is_new_client (evs r) <= 1)%nat
    /\ (count is_new_client (evs r) = 1%nat ->
        count is_disconnect (evs r) = 1%nat
        /\ count (is_disconnect_of (next_handle s)) (evs r) = 1%nat);
  cw_other : existsb (opens_other (next_handle s)) (evs r) = false;
  cw_live :
    forall a, connected_ok (evs r) = true ->
    exists h, _device (self (st r)) = Some h
              /\ last_liveness a (evs r) = Some (h, true)
}.

End Observe.

(** ** The reconnect after a failed write, in detail *)

Module Reconnect.

Import Bytes Ble Run Trace Post Observe.

(** The answer to the first liveness query of a trace. *)
Fixpoint first_liveness (l : list event) : option bool :=
  match l with
  | [] => None
  | EvIsConnected _ b :: _ => Some b
  | _ :: l' => first_liveness l'
  end.

(** What [connect] does to the stack: it resolves at most once, creates a
    client only after a resolution and connects only a client it created;
    when it succeeds nothing has been closed, and it has either resolved and
    connected once or done neither; with a handle, its first question is
    whether that client is connected, and the answer decides between
    returning at once and resolving. *)
Record reconnect_post (s : St) (r : Res bool) : Prop := {
  rp_gatt : (count is_gatt_connect (evs r) <= count is_new_client (evs r))%nat;
  rp_client : (count is_new_client (evs r) <= count is_resolve (evs r))%nat;
  rp_true :
    connected_ok (evs r) = true ->
    count is_disconnect (evs r) = 0%nat
    /\ count is_gatt_connect (evs r) = count is_resolve (evs r)
    /\ count is_new_client (evs r) = count is_resolve (evs r);
  rp_false :
    connected_ok (evs r) = false -> (count is_disconnect (evs r) <= 1)%nat;
  rp_first :
    _device (self s) <> None ->
    exists b, first_liveness (evs r) = Some b
              /\ if b
                 then connected_ok (evs r) = true
                      /\ count is_resolve (evs r) = 0%nat
                 else count is_resolve (evs r) = 1%nat
}.

(** What follows the first write attempt of a [_send], given the answer [r]
    to that attempt.  After [BleakError] there is one call of [connect]; it
    starts by asking whether the held client is connected, and returns at
    once when it is.  After any other answer nothing touches the stack. *)
Definition reconnect_shape (r : option exn) (rest : list event) : Prop :=
  match r with
  | Some BleakError =>
      count is_connect_call rest = 1%nat
      /\ (count is_gatt_connect rest <= count is_new_client rest)%nat
      /\ (count is_new_client rest <= count is_resolve rest)%nat
      /\ (count is_resolve rest <= 1)%nat
      /\ (exists b, first_liveness rest = Some b
                    /\ if b
                       then connected_ok rest = true
                            /\ count is_resolve rest = 0%nat
                       else count is_resolve rest = 1%nat)
      /\ if connected_ok rest
         then count is_write rest = 1%nat
              /\ count is_disconnect rest = 0%nat
              /\ count is_gatt_connect rest = count is_resolve rest
              /\ count is_new_client rest = count is_resolve rest
         else count is_write rest = 0%nat
              /\ (count is_disconnect rest <= 1)%nat
  | _ => count is_interaction rest = 0%nat
  end.

(** A log record that marks neither a call of [connect] nor its success. *)
Definition quiet (e : event) : bool :=
  match e with
  | EvLog _ _ => negb (is_connect_call e || is_connect_success e)
  | _ => false
  end.

(** The trace of one command: what follows its first write attempt, if it
    makes one. *)
Definition reconnect_ok (tr : list event) : Prop :=
  match after_first_write tr with
  | Some (answer, rest) => reconnect_shape answer rest
  | None => count is_write tr = 0%nat
  end.

(** The first write fails although the client stays connected; everything
    else succeeds. *)
Definition link_glitch : Transport :=
  {| is_connected_at := fun _ _ => true;
     resolve_at := fun _ => Some amplifier;
     connect_at := fun _ _ => None;
     write_at := fun t _ _ => if Nat.leb t 3 then Some BleakError else None;
     disconnect_at := fun _ _ => None |}.

(** Writes fail with an error that is not a [BleakError]. *)
Definition link_write_other : Transport :=
  {| is_connected_at := fun _ _ => true;
     resolve_at := fun _ => Some amplifier;
     connect_at := fun _ _ => None;
     write_at := fun _ _ _ => Some OtherException;
     disconnect_at := fun _ _ => None |}.

(** Everything succeeds but closing a client, which raises. *)
Definition link_close_fails : Transport :=
  {| is_connected_at := fun _ _ => true;
     resolve_at := fun _ => Some amplifier;
     connect_at := fun _ _ => None;
     write_at := fun _ _ _ => None;
     disconnect_at := fun _ _ => Some BleakError |}.

End Reconnect.

(** ** sinilink.py: discovery *)

Module Discovery.

Import Ble Run.
Local Open Scope string_scope.

(** A device as [BleakScanner.discover] reports it; its name is optional. *)
Record ScanEntry := { scan_address : string; scan_name : option string }.

(** [name.startswith(prefix)]. *)
Definition startswith (name pre : string) : bool := String.prefix pre name.

(** [[device for device in devices if
      device.name.startswith("Sinilink-APP")]]: the devices are tested in
    order, and [startswith] on the name [None] raises. *)
Fixpoint keep_sinilink (devices : list ScanEntry)
  : outcome (list ScanEntry) :=
  match devices with
  | [] => Return []
  | device :: rest =>
      match scan_name device with
      | None => Raise AttributeError
      | Some name =>
          match keep_sinilink rest with
          | Return kept =>
              Return (if startswith name "Sinilink-APP"
                      then device :: kept else kept)
          | Raise e => Raise e
          end
      end
  end.

(** [discover()], given what the scan answers: the outcome and the log. *)
Definition discover (scan : outcome (list ScanEntry))
  : outcome (list ScanEntry) * list event :=
  match scan with
  | Raise e => (Raise e, [])
  | Return devices =>
      (keep_sinilink devices, [EvLog DEBUG "Discovered devices: %s"])
  end.

Definition has_name (d : ScanEntry) : bool :=
  match scan_name d with Some _ => true | None => false end.

Definition is_sinilink (d : ScanEntry) : bool :=
  match scan_name d with
  | Some name => startswith name "Sinilink-APP"
  | None => false
  end.

End Discovery.

(** ** media_player.py: the entity *)

Module Player.

Import SpecFloat Ble Run MediaPlayer.
Local Open Scope string_scope.

Inductive MediaPlayerState := STATE_ON | STATE_OFF.

(** The entity [SinilinkAmplifier] with its remaining fields. *)
Record Entity := {
  core : SinilinkAmplifier;
  _attr_state : MediaPlayerState;
  _source : string
}.

(** [SinilinkAmplifier.__init__]: the entity and its [SinilinkInstance].
    The source list is the sorted set of AUX and Bluetooth, so the first
    source is AUX. *)
Definition create (name mac : string) : Entity * SinilinkInstance :=
  ({| core := MediaPlayer.init name; _attr_state := STATE_OFF;
      _source := "AUX" |},
   Sinilink.init mac).

(** The property [state]. *)
Definition state (amp : SinilinkInstance) : MediaPlayerState :=
  if _is_on amp then STATE_ON else STATE_OFF.

(** [a / b] on integers: the quotient rounded to the nearest float;
    [ZeroDivisionError] (here [OtherException]) for a zero divisor,
    [OverflowError] when the quotient does not fit. *)
Definition div_int (a b : Z) : outcome PyFloat.float :=
  if (b =? 0)%Z then Raise OtherException
  else if (a =? 0)%Z then Return (S754_zero (b <? 0)%Z)
  else
    let '(q, e, l) :=
      SFdiv_core_binary PyFloat.prec PyFloat.emax (Z.abs a) 0 (Z.abs b) 0 in
    match binary_round_aux PyFloat.prec PyFloat.emax
            (xorb (a <? 0)%Z (b <? 0)%Z) q e l with
    | S754_infinity _ => Raise OverflowError
    | x => Return x
    end.

Definition with_level (l : PyFloat.float) (p : Entity) : Entity :=
  {| core := {| _name := _name (core p); _muted := _muted (core p);
                _media_volume_level := l;
                _volume_max := _volume_max (core p) |};
     _attr_state := _attr_state p; _source := _source p |}.

Definition with_state (st : MediaPlayerState) (p : Entity) : Entity :=
  {| core := core p; _attr_state := st; _source := _source p |}.


(** [update()]: what it returns or raises, and the entity afterwards.  The
    state is assigned before the level is computed; a volume [None] cannot be
    divided ([TypeError], here [OtherException]). *)
Definition update (amp : SinilinkInstance) (p : Entity)
  : outcome bool * Entity :=
  let p1 := with_state (state amp) p in
  match _volume amp with
  | None => (Raise OtherException, p1)
  | Some v =>
      match div_int v (_volume_max (core p1)) with
      | Return l => (Return true, with_level l p1)
      | Raise e => (Raise e, p1)
      end
  end.

(** The volumes a [SinilinkInstance] can hold: those whose bucket fits a
    byte, -4 to 429. *)
Definition cached_volumes : list Z :=
  map (fun n => (Z.of_nat n - 4)%Z) (seq 0 434).

(** [update()] on the cached volume [x] gives a well-formed level, which
    lies between 0 and 1 exactly when [0 <= x <= 255]. *)
Definition level_defined (x : Z) : bool :=
  match div_int x 255 with
  | Return l =>
      valid_binary PyFloat.prec PyFloat.emax l
      && Bool.eqb (SFleb PyFloat.zero l && SFleb l PyFloat.one)
           ((0 <=? x)%Z && (x <=? 255)%Z)
  | Raise _ => false
  end.

(** [x] survives [update()] followed by [int(level * 255)]. *)
Definition level_round_trip (x : Z) : bool :=
  match div_int x 255 with
  | Return l =>
      valid_binary PyFloat.prec PyFloat.emax l
      && SFleb PyFloat.zero l && SFleb l PyFloat.one
      && (PyFloat.level_units l =? x)%Z
  | Raise _ => false
  end.

Section Handlers.

Variable T : Transport.


End Handlers.

End Player.

(** ** config_flow.py and the set-up of the platform *)

Module Config.

Import Ble Run.
Local Open Scope string_scope.

(** A Python [dict] from strings to strings: keys are unique and keep their
    order of insertion. *)
Definition dict := list (string * string).

Fixpoint get (k : string) (d : dict) : option string :=
  match d with
  | [] => None
  | (k', v) :: d' => if String.eqb k k' then Some v else get k d'
  end.

(** [d[k] = v]. *)
Fixpoint set (k v : string) (d : dict) : dict :=
  match d with
  | [] => [(k, v)]
  | (k', v') :: d' =>
      if String.eqb k k' then (k', v) :: d' else (k', v') :: set k v d'
  end.

Definition keys (d : dict) : list string := map fst d.
Definition values (d : dict) : list string := map snd d.

(** A device as [bluetooth.async_discovered_service_info] reports it. *)
Record ServiceInfo := { info_address : string; info_name : option string }.

(** [dev.name and dev.name.startswith("Sinilink-APP")]. *)
Definition advertises_sinilink (dev : ServiceInfo) : bool :=
  match info_name dev with
  | Some name =>
      negb (String.eqb name "") && String.prefix "Sinilink-APP" name
  | None => false
  end.

(** The list [discovered_devices] of pairs (address, name). *)
Fixpoint discovered (ble_devices : list ServiceInfo)
  : list (string * string) :=
  match ble_devices with
  | [] => []
  | dev :: rest =>
      match info_name dev with
      | Some name =>
          if advertises_sinilink dev
          then (info_address dev, name) :: discovered rest
          else discovered rest
      | None => discovered rest
      end
  end.

(** The dict [device_choices]: one entry [name (mac)] per discovered
    device, then the entry for manual input. *)
Definition device_choices (found : list (string * string)) : dict :=
  set "Enter MAC manually" "manual"
    (fold_left (fun d '(mac, name) => set (name ++ " (" ++ mac ++ ")") mac d)
       found []).

(** ["\n".join(keys)]. *)
Fixpoint join_lines (l : list string) : string :=
  match l with
  | [] => ""
  | [x] => x
  | x :: rest => x ++ String "010" (join_lines rest)
  end.

Inductive FlowResult :=
| CreateEntry (title : string) (data : dict)
| ShowUserForm (mac_choices : list string) (devices : string)
| ShowManualForm
| KeyError (key : string).

Section Flow.

(** [CONF_NAME] and [CONF_MAC] come from [homeassistant.const]. *)
Variables CONF_NAME CONF_MAC : string.

(** [self.async_create_entry(title=..., data={...})] on the input. *)
Definition create_entry (user_input : dict) : FlowResult :=
  match get CONF_MAC user_input with
  | None => KeyError CONF_MAC
  | Some mac =>
      let title :=
        match get CONF_NAME user_input with
        | Some name => if String.eqb name "" then mac else name
        | None => mac
        end in
      let name :=
        match get CONF_NAME user_input with
        | Some name => name
        | None => ""
        end in
      CreateEntry title (set CONF_MAC mac (set CONF_NAME name []))
  end.

Definition async_step_manual (user_input : option dict) : FlowResult :=
  match user_input with
  | Some input => create_entry input
  | None => ShowManualForm
  end.

Definition is_manual (v : option string) : bool :=
  match v with
  | Some mac => String.eqb mac "manual"
  | None => false
  end.

Definition non_empty {A} (l : list A) : bool :=
  match l with [] => false | _ => true end.

Definition async_step_user (ble_devices : list ServiceInfo)
  (user_input : option dict) : FlowResult :=
  let discovered_devices := discovered ble_devices in
  match user_input with
  | Some input =>
      if non_empty discovered_devices && is_manual (get CONF_MAC input)
      then async_step_manual None
      else create_entry input
  | None =>
      if non_empty discovered_devices
      then
        let choices := device_choices discovered_devices in
        ShowUserForm (values choices) (join_lines (keys choices))
      else async_step_manual None
  end.

(** The dict [amp] that [async_setup_entry] builds from the entry data, then
    the entity made from it; [KeyError] as in the flow. *)
Definition async_setup_entry (data : dict)
  : FlowResult + (Player.Entity * SinilinkInstance) :=
  let name := match get CONF_NAME data with
              | Some name => name
              | None => "Sinilink Amplifier"
              end in
  match get CONF_MAC data with
  | None => inl (KeyError CONF_MAC)
  | Some mac => inr (Player.create name mac)
  end.

(** [setup_platform] on a YAML configuration. *)
Definition setup_platform (config : dict)
  : FlowResult + (Player.Entity * SinilinkInstance) :=
  match get CONF_NAME config with
  | None => inl (KeyError CONF_NAME)
  | Some name =>
      match get CONF_MAC config with
      | None => inl (KeyError CONF_MAC)
      | Some mac => inr (Player.create name mac)
      end
  end.

End Flow.

End Config.

(** * Facts *)

(** ** Traces *)

Module TraceFacts.

Import Ble Trace.

Lemma count_app p l1 l2 : count p (l1 ++ l2) = (count p l1 + count p l2)%nat.
Proof. unfold count. now rewrite filter_app, length_app. Qed.

Lemma count_cons p e l :
  count p (e :: l) = ((if p e then 1 else 0) + count p l)%nat.
Proof. unfold count. simpl. now destruct (p e). Qed.

Lemma count_nil p : count p [] = 0%nat.
Proof. reflexivity. Qed.

Lemma writes_app l1 l2 : writes (l1 ++ l2) = writes l1 ++ writes l2.
Proof.
  induction l1 as [|e l1 IH]; simpl; [reflexivity|].
  destruct e; simpl; now rewrite ?IH.
Qed.

Lemma writes_count l : List.length (writes l) = count is_write l.
Proof.
  induction l as [|e l IH]; [reflexivity|].
  rewrite count_cons. destruct e; simpl; lia.
Qed.

Lemma count_write_nil l : writes l = [] -> count is_write l = 0%nat.
Proof. intros H. now rewrite <- writes_count, H. Qed.

Lemma delivered_app l1 l2 : delivered (l1 ++ l2) = delivered l1 || delivered l2.
Proof. apply existsb_app. Qed.

Lemma delivered_no_write l : writes l = [] -> delivered l = false.
Proof.
  induction l as [|e l IH]; [reflexivity|].
  destruct e; simpl; auto; discriminate.
Qed.

Lemma connected_ok_app l1 l2 :
  connected_ok (l1 ++ l2) = connected_ok l1 || connected_ok l2.
Proof. apply existsb_app. Qed.

Lemma after_first_write_app l1 l2 :
  writes l1 = [] -> after_first_write (l1 ++ l2) = after_first_write l2.
Proof.
  induction l1 as [|e l1 IH]; simpl; [reflexivity|].
  destruct e; simpl; auto; discriminate.
Qed.

End TraceFacts.

(** ** The checksum *)

Module CrcFacts.

Import Bytes Crc.

Lemma below256_In n : 0 <= n < 256 -> In n below256.
Proof.
  intros H. unfold below256.
  replace n with (Z.of_nat (Z.to_nat n)) by lia.
  apply in_map, in_seq. lia.
Qed.

Lemma forall_below256 (P : Z -> bool) :
  forallb P below256 = true -> forall n, 0 <= n < 256 -> P n = true.
Proof.
  intros H n Hn. rewrite forallb_forall in H. now apply H, below256_In.
Qed.

Lemma in_byte_range_iff n : in_byte_range n = true <-> 0 <= n < 256.
Proof. unfold in_byte_range. rewrite andb_true_iff. lia. Qed.

Lemma byte_to_Z_range b : 0 <= byte_to_Z b < 256.
Proof.
  unfold byte_to_Z. pose proof (Byte.to_N_bounded b). lia.
Qed.

Lemma reflect8_range n : 0 <= n < 256 -> 0 <= reflectbitorder 8 n < 256.
Proof.
  intros H. apply in_byte_range_iff.
  revert n H. apply forall_below256. vm_compute. reflexivity.
Qed.

Lemma fold_left_cons {A B} (f : A -> B -> A) x l a :
  fold_left f (x :: l) a = fold_left f l (f a x).
Proof. reflexivity. Qed.

Lemma process_byte_range crc b : 0 <= process_byte crc b < 256.
Proof.
  unfold process_byte.
  change 0xFF with (Z.ones 8). rewrite Z.land_ones by lia.
  apply Z.mod_pos_bound. reflexivity.
Qed.

Lemma process_range data crc : 0 <= crc < 256 -> 0 <= process crc data < 256.
Proof.
  unfold process. revert crc.
  induction data as [|b data IH]; intros crc H; [exact H|].
  rewrite fold_left_cons. apply IH, process_byte_range.
Qed.

Lemma Crc8Maxim_range data : 0 <= Crc8Maxim data < 256.
Proof.
  unfold Crc8Maxim, final, xor_output. rewrite Z.lxor_0_r.
  apply reflect8_range, process_range. unfold initvalue. lia.
Qed.

Lemma to_bytes1_Some n :
  0 <= n < 256 -> exists b, to_bytes1 n = Some [b] /\ byte_to_Z b = n.
Proof.
  intros H. unfold to_bytes1.
  replace ((0 <=? n) && (n <? 256)) with true
    by (symmetry; apply andb_true_iff; lia).
  destruct (Byte.of_N (Z.to_N n)) as [b|] eqn:E.
  - exists b. split; [reflexivity|].
    apply Byte.to_of_N in E. unfold byte_to_Z. lia.
  - apply Byte.of_N_None_iff in E. lia.
Qed.

Lemma finalbytes_eq data : finalbytes data = Some [Post.crc_byte data].
Proof.
  unfold finalbytes, Post.crc_byte.
  destruct (to_bytes1_Some _ (Crc8Maxim_range data)) as (b & E & _).
  rewrite E. unfold to_bytes1 in E.
  destruct ((0 <=? Crc8Maxim data) && (Crc8Maxim data <? 256)); [|discriminate].
  destruct (Byte.of_N (Z.to_N (Crc8Maxim data))); [|discriminate].
  now inversion E.
Qed.

Lemma crc_byte_value data : byte_to_Z (Post.crc_byte data) = Crc8Maxim data.
Proof.
  unfold Post.crc_byte.
  destruct (to_bytes1_Some _ (Crc8Maxim_range data)) as (b & E & Hb).
  unfold to_bytes1 in E.
  destruct ((0 <=? Crc8Maxim data) && (Crc8Maxim data <? 256)); [|discriminate].
  destruct (Byte.of_N (Z.to_N (Crc8Maxim data))); [|discriminate].
  now inversion E; subst.
Qed.

Lemma mirror_table :
  forallb (fun crc => forallb (mirror_step_ok crc) below256) below256 = true.
Proof. vm_compute. reflexivity. Qed.

Lemma mirror_step_ok_all crc b :
  0 <= crc < 256 -> 0 <= b < 256 -> mirror_step_ok crc b = true.
Proof.
  intros Hc Hb.
  pose proof (forall_below256
                (fun c => forallb (mirror_step_ok c) below256)
                mirror_table crc Hc) as Hrow.
  cbv beta in Hrow.
  exact (forall_below256 (mirror_step_ok crc) Hrow b Hb).
Qed.

Lemma mirror_byte crc b :
  0 <= crc < 256 ->
  reflectbitorder 8 (process_byte (reflectbitorder 8 crc) b) = lsb_byte crc b.
Proof.
  intros H.
  pose proof (mirror_step_ok_all crc _ H (byte_to_Z_range b)) as Hc.
  unfold mirror_step_ok, byte_to_Z in Hc.
  rewrite N2Z.id, Byte.of_to_N in Hc. now apply Z.eqb_eq in Hc.
Qed.

Lemma reflect8_involutive n :
  0 <= n < 256 -> reflectbitorder 8 (reflectbitorder 8 n) = n.
Proof.
  intros H. apply Z.eqb_eq. revert n H.
  apply forall_below256. vm_compute. reflexivity.
Qed.

Lemma lsb_byte_range crc b : 0 <= crc < 256 -> 0 <= lsb_byte crc b < 256.
Proof.
  intros H. rewrite <- mirror_byte by exact H.
  apply reflect8_range, process_byte_range.
Qed.

Lemma mirror_step crc b :
  0 <= crc < 256 ->
  process_byte (reflectbitorder 8 crc) b = reflectbitorder 8 (lsb_byte crc b).
Proof.
  intros H. rewrite <- mirror_byte by exact H.
  symmetry. apply reflect8_involutive, process_byte_range.
Qed.

Lemma mirror_fold data crc :
  0 <= crc < 256 ->
  process (reflectbitorder 8 crc) data
  = reflectbitorder 8 (fold_left lsb_byte data crc).
Proof.
  unfold process. revert crc.
  induction data as [|b data IH]; intros crc H; [reflexivity|].
  rewrite !fold_left_cons, (mirror_step crc b H).
  apply (IH (lsb_byte crc b)), lsb_byte_range, H.
Qed.

Lemma fold_lsb_range data crc :
  0 <= crc < 256 -> 0 <= fold_left lsb_byte data crc < 256.
Proof.
  revert crc.
  induction data as [|b data IH]; intros crc H; [exact H|].
  rewrite fold_left_cons. apply IH, lsb_byte_range, H.
Qed.

(** Both forms compute the same checksum. *)
Lemma Crc8Maxim_lsb data : Crc8Maxim data = crc8_maxim_lsb data.
Proof.
  unfold Crc8Maxim, final, xor_output, crc8_maxim_lsb, initvalue.
  rewrite Z.lxor_0_r.
  change 0 with (reflectbitorder 8 0) at 1.
  rewrite mirror_fold by lia.
  apply reflect8_involutive, fold_lsb_range. lia.
Qed.

(** The check value of the catalogue: the CRC of the ASCII digits 1 to 9. *)
Lemma Crc8Maxim_check :
  Crc8Maxim [x31; x32; x33; x34; x35; x36; x37; x38; x39] = 0xA1.
Proof. reflexivity. Qed.

End CrcFacts.

(** ** The session *)

Module SessionFacts.

Import Bytes Ble Run Sinilink Trace Post TraceFacts CrcFacts.

(** Evaluate the monad operations down to the answers of the oracle. *)
Ltac run_delta :=
  cbv beta iota zeta delta
    [bind try_except ret raise lift emit tick fresh_handle
     get_self put_self set_device set_is_on set_volume_field log
     is_connected async_ble_device_from_address BleakClient answer
     client_connect sleep write_gatt_char client_disconnect on_device
     device_is_connected swallow
     self clock next_handle _mac _device _is_on _volume out st evs];
  cbn [app].

(** Case analysis on the innermost value the run is waiting for. *)
Ltac split_scrutinee :=
  match goal with
  | |- context [match ?x with _ => _ end] =>
      lazymatch x with
      | context [match _ with _ => _ end] => fail
      | _ =>
          let t := type of x in
          lazymatch t with
          | Res _ => fail
          | _ => destruct x eqn:?
          end
      end
  end.

Ltac run := run_delta; repeat (split_scrutinee; run_delta).

(** Every path through [connect], for every answer of the stack. *)
Lemma connect_spec T s : connect_post s (connect T s).
Proof.
  destruct s as [[mac dev on vol] clk nh].
  unfold connect. run.
  all: constructor; unfold same_cache; cbn;
    solve [reflexivity | discriminate | lia | auto].
Qed.

(** [disconnect] cannot fail and always clears the handle. *)
Lemma disconnect_spec T s :
  out (disconnect T s) = Return tt
  /\ _device (self (st (disconnect T s))) = None
  /\ same_cache s (st (disconnect T s))
  /\ writes (evs (disconnect T s)) = [].
Proof.
  destruct s as [[mac dev on vol] clk nh].
  unfold disconnect, same_cache. run.
  all: cbn; repeat split; reflexivity.
Qed.

(** Replace a pending call of [connect] by an arbitrary result that
    satisfies its postcondition, once for success and once for failure. *)
Ltac use_connect :=
  match goal with
  | |- context [connect ?T ?s] =>
      let H := fresh "Hc" in
      let o := fresh "o" in
      let s' := fresh "s" in
      let e := fresh "e" in
      pose proof (connect_spec T s) as H;
      destruct (connect T s) as [o s' e];
      destruct H as [Hout ? ? ? ? ? ?];
      cbn [out st evs] in *;
      rewrite Hout; clear Hout;
      destruct (connected_ok e) eqn:?
  end.

Lemma connected_ok_cons e l :
  connected_ok (e :: l) = is_connect_success e || connected_ok l.
Proof. reflexivity. Qed.

Lemma dump_head data : dump data = ""%string \/ exists s, dump data = String " " s.
Proof.
  destruct data as [|b data]; [now left|right].
  unfold dump. cbn [fold_right]. unfold format_03x at 1.
  cbn [String.append]. eauto.
Qed.

Lemma dump_not_call data : is_connect_call (EvLog DEBUG (dump data)) = false.
Proof. destruct (dump_head data) as [E|[s E]]; rewrite E; reflexivity. Qed.

Lemma dump_not_success data :
  is_connect_success (EvLog DEBUG (dump data)) = false.
Proof. destruct (dump_head data) as [E|[s E]]; rewrite E; reflexivity. Qed.

(** Push the trace observers through appended and consed events. *)
Ltac trace_norm :=
  cbn [out st evs];
  repeat first
    [ rewrite count_cons | rewrite count_app | rewrite count_nil
    | rewrite writes_app | rewrite delivered_app | rewrite connected_ok_app
    | rewrite connected_ok_cons
    | rewrite dump_not_call | rewrite dump_not_success ].

(** A part of the trace without writes counts no write and delivers
    nothing. *)
Ltac count_facts :=
  repeat match goal with
         | H : writes ?e = [] |- _ =>
             lazymatch goal with
             | _ : count is_write e = 0%nat |- _ => fail
             | _ => pose proof (count_write_nil e H);
                    pose proof (delivered_no_write e H)
             end
         end.

Ltac solve_counts :=
  count_facts; trace_norm;
  cbn [is_write is_gatt_connect is_resolve is_connect_call is_log
       is_connect_success is_delivery String.eqb Ascii.eqb Bool.eqb orb andb
       Nat.add];
  repeat match goal with H : _ = _ |- _ => rewrite H end;
  cbn [Nat.add]; try lia; try reflexivity.

(** Every path through [_send]: the two calls of [connect] are taken by
    their postcondition, everything else is followed answer by answer. *)
Lemma send_spec T data s : send_post data s (_send T data s).
Proof.
  destruct s as [[mac dev on vol] clk nh].
  unfold _send. rewrite finalbytes_eq.
  run.
  all: repeat (use_connect; run).
  all: try congruence.
  all: constructor.
  all: try reflexivity.
  all: try (unfold same_cache in *; cbn in *; intuition congruence).
  all: cbn [out st evs]; rewrite ?app_nil_r.
  all: try (repeat (cbn [writes app]; rewrite ?writes_app;
                    repeat match goal with
                           | H : writes _ = [] |- _ => rewrite H
                           end);
            repeat constructor; fail).
  all: try (solve_counts; fail).
  all: cbn [after_first_write];
    repeat (rewrite after_first_write_app by assumption;
            cbn [after_first_write]).
  all: try (unfold retry_shape; repeat split; solve_counts; fail).
  all: try (count_facts; unfold delivered; cbn [existsb is_delivery orb];
            rewrite ?existsb_app; cbn [existsb is_delivery orb];
            repeat match goal with
                   | H : delivered _ = false |- _ =>
                       unfold delivered in H; rewrite H
                   end; reflexivity).
Qed.

End SessionFacts.

(** ** The commands *)

Module CommandFacts.

Import Bytes Ble Run Sinilink Trace Post TraceFacts CrcFacts SessionFacts.

Lemma fromhex_header : fromhex "7e0f1d" = Some [x7e; x0f; x1d].
Proof. reflexivity. Qed.

Lemma fromhex_params : fromhex "00000000000000000000" = Some (repeat x00 10).
Proof. reflexivity. Qed.

Lemma fromhex_00 : fromhex "00" = Some [x00].
Proof. reflexivity. Qed.

Lemma fromhex_aa : fromhex "aa" = Some [xaa].
Proof. reflexivity. Qed.

Lemma fromhex_aux : fromhex "7e05160099" = Some aux_literal.
Proof. reflexivity. Qed.

Lemma fromhex_bluetooth : fromhex "7e05140097" = Some bluetooth_literal.
Proof. reflexivity. Qed.

Lemma fromhex_poweroff :
  fromhex "7e0f1d0000000000000000000000aa" = Some poweroff_frame.
Proof. reflexivity. Qed.

Lemma to_bytes1_byte_of n : 0 <= n < 256 -> to_bytes1 n = Some [byte_of n].
Proof.
  intros H. unfold to_bytes1, byte_of.
  replace ((0 <=? n) && (n <? 256)) with true
    by (symmetry; apply andb_true_iff; lia).
  destruct (Byte.of_N (Z.to_N n)) eqn:E; [reflexivity|].
  apply Byte.of_N_None_iff in E. lia.
Qed.

Lemma byte_of_value n : 0 <= n < 256 -> byte_to_Z (byte_of n) = n.
Proof.
  intros H. destruct (to_bytes1_Some n H) as (b & E & Hb).
  rewrite (to_bytes1_byte_of n H) in E. injection E as <-. exact Hb.
Qed.

Lemma to_bytes1_None n : ~ 0 <= n < 256 -> to_bytes1 n = None.
Proof.
  intros H. unfold to_bytes1.
  destruct ((0 <=? n) && (n <? 256)) eqn:E; [|reflexivity].
  apply andb_true_iff in E. lia.
Qed.

Lemma int_div5_floor n : 0 <= n -> int_div5 n = n / 5.
Proof. intros H. unfold int_div5. apply Z.quot_div_nonneg; lia. Qed.

(** Name the frame and the state of the pending [_send] and finish by case
    analysis on its result. *)
Ltac finish_with_send frame state :=
  match goal with
  | |- context [_send ?T ?d ?s0] =>
      change d with frame; change s0 with state;
      destruct (_send T frame state); reflexivity
  end.

Lemma turn_off_eq T s : turn_off T s = _send T poweroff_frame (with_is_on false s).
Proof.
  unfold turn_off.
  rewrite fromhex_header, fromhex_00, fromhex_params, fromhex_aa.
  change ([x7e; x0f; x1d] ++ [x00] ++ repeat x00 10 ++ [xaa])
    with poweroff_frame.
  run_delta. finish_with_send poweroff_frame (with_is_on false s).
Qed.

Lemma aux_eq T s : aux T s = _send T aux_literal s.
Proof.
  unfold aux. rewrite fromhex_aux. run_delta.
  finish_with_send aux_literal s.
Qed.

Lemma bluetooth_eq T s : bluetooth T s = _send T bluetooth_literal s.
Proof.
  unfold bluetooth. rewrite fromhex_bluetooth. run_delta.
  finish_with_send bluetooth_literal s.
Qed.


Lemma volume_frame_build b :
  0 <= b <= 85 ->
  [x7e; x0f; x1d] ++ [byte_of b] ++ repeat x00 10 ++ [byte_of (b + 170)]
  = volume_frame b.
Proof.
  intros H. unfold volume_frame. now rewrite (Z.mod_small (b + 170)) by lia.
Qed.

Lemma set_volume_cases T x s :
  let b := int_div5 x in
  (0 <= b <= 85
   /\ set_volume T x s = store_volume (Some x) (_send T (volume_frame b) s))
  \/ (~ 0 <= b <= 85 /\ set_volume T x s = rejected s).
Proof.
  intros b. unfold set_volume. fold b. clearbody b.
  rewrite fromhex_header, fromhex_params.
  destruct (Z_le_dec 0 b) as [H0|H0];
    [destruct (Z_le_dec b 85) as [H1|H1]|].
  - left. split; [lia|].
    rewrite !to_bytes1_byte_of by lia.
    run_delta. unfold store_volume.
    match goal with
    | |- context [_send T ?d s] =>
        replace d with (volume_frame b)
          by (symmetry; apply volume_frame_build; lia)
    end.
    pose proof (sp_out _ _ _ (send_spec T (volume_frame b) s)) as Ho.
    destruct (_send T (volume_frame b) s) as [o s' e].
    cbn [out] in Ho. subst o. now rewrite app_nil_r.
  - right. split; [lia|].
    destruct s as [[mac dev on vol] clk nh].
    destruct (Z_lt_dec b 256);
      [rewrite (to_bytes1_byte_of b), (to_bytes1_None (b + 170)) by lia
      |rewrite (to_bytes1_None b) by lia]; reflexivity.
  - right. split; [lia|].
    rewrite (to_bytes1_None b) by lia.
    destruct s as [[mac dev on vol] clk nh]. reflexivity.
Qed.

Lemma turn_on_cases T s :
  let b := turn_on_bucket s in
  (0 <= b <= 85
   /\ turn_on T s = _send T (volume_frame b) (with_is_on true s))
  \/ (~ 0 <= b <= 85 /\ turn_on T s = rejected (with_is_on true s)).
Proof.
  intros b. unfold turn_on.
  rewrite fromhex_header, fromhex_params.
  destruct s as [[mac dev on vol] clk nh].
  run_delta. unfold turn_on_bucket in b. cbn [_volume self] in b. fold b.
  clearbody b.
  destruct (Z_le_dec 0 b) as [H0|H0];
    [destruct (Z_le_dec b 85) as [H1|H1]|].
  - left. split; [lia|].
    rewrite !to_bytes1_byte_of by lia.
    run_delta.
    match goal with
    | |- context [_send T ?d ?s0] =>
        replace d with (volume_frame b)
          by (symmetry; apply volume_frame_build; lia);
        change s0
          with (with_is_on true
                  {| self := {| _mac := mac; _device := dev; _is_on := on;
                                _volume := vol |};
                     clock := clk; next_handle := nh |})
    end.
    match goal with
    | |- context [_send T ?d ?s0] => destruct (_send T d s0)
    end.
    reflexivity.
  - right. split; [lia|].
    destruct (Z_lt_dec b 256);
      [rewrite (to_bytes1_byte_of b), (to_bytes1_None (b + 170)) by lia
      |rewrite (to_bytes1_None b) by lia]; reflexivity.
  - right. split; [lia|].
    rewrite (to_bytes1_None b) by lia. reflexivity.
Qed.

Lemma set_volume_eq T x s :
  0 <= x <= 255 ->
  set_volume T x s
  = store_volume (Some x) (_send T (volume_frame (x / 5)) s).
Proof.
  intros H. rewrite <- int_div5_floor by lia.
  assert (Hb : 0 <= int_div5 x <= 51).
  { rewrite int_div5_floor by lia.
    split; [apply Z.div_pos; lia|apply Z.div_le_upper_bound; lia]. }
  destruct (set_volume_cases T x s) as [[_ E]|[Hn _]];
    [exact E|cbv zeta in Hn; lia].
Qed.

Lemma turn_on_eq T s v :
  _volume (self s) = Some v -> 0 <= v <= 255 ->
  turn_on T s = _send T (volume_frame (v / 5)) (with_is_on true s).
Proof.
  intros Hv H.
  assert (Hb : turn_on_bucket s = v / 5).
  { unfold turn_on_bucket. rewrite Hv. apply int_div5_floor. lia. }
  assert (Hr : 0 <= v / 5 <= 51).
  { split; [apply Z.div_pos; lia|apply Z.div_le_upper_bound; lia]. }
  destruct (turn_on_cases T s) as [[_ E]|[Hn _]]; cbv zeta in *;
    rewrite Hb in *; [exact E|lia].
Qed.

End CommandFacts.

(** ** The operations as a caller sees them *)

Module OperationFacts.

Import Bytes Crc Ble Run Sinilink Trace Post.
Import TraceFacts CrcFacts SessionFacts CommandFacts.

Lemma same_cache_with_is_on b s s' :
  same_cache (with_is_on b s) s' ->
  _is_on (self s') = b /\ _volume (self s') = _volume (self s)
  /\ _mac (self s') = _mac (self s).
Proof.
  unfold same_cache, with_is_on. cbn [self _mac _is_on _volume]. tauto.
Qed.

(** Every command either is stopped by the range check before anything
    happens or is one [_send]. *)
Lemma perform_is_send T op s :
  (out (perform T op s) = Raise OverflowError /\ evs (perform T op s) = [])
  \/ exists frame s0,
       out (perform T op s) = Return tt
       /\ evs (perform T op s) = evs (_send T frame s0).
Proof.
  destruct op as [| |x| |]; cbn [perform].
  - destruct (turn_on_cases T s) as [[_ E]|[_ E]]; rewrite E.
    + right. eexists _, _. split; [apply send_spec|reflexivity].
    + left. split; reflexivity.
  - rewrite turn_off_eq. right. eexists _, _.
    split; [apply send_spec|reflexivity].
  - destruct (set_volume_cases T x s) as [[_ E]|[_ E]]; rewrite E.
    + right. eexists _, _. split; [apply send_spec|reflexivity].
    + left. split; reflexivity.
  - rewrite aux_eq. right. eexists _, _.
    split; [apply send_spec|reflexivity].
  - rewrite bluetooth_eq. right. eexists _, _.
    split; [apply send_spec|reflexivity].
Qed.

Lemma no_first_write l : after_first_write l = None -> count is_write l = 0%nat.
Proof.
  induction l as [|e l IH]; [reflexivity|].
  rewrite count_cons. destruct e; cbn; auto; discriminate.
Qed.

Lemma turn_on_cache T s :
  _is_on (self (st (turn_on T s))) = true
  /\ _volume (self (st (turn_on T s))) = _volume (self s).
Proof.
  destruct (turn_on_cases T s) as [[_ E]|[_ E]]; rewrite E.
  - pose proof (sp_cache _ _ _ (send_spec T (volume_frame (turn_on_bucket s))
                                  (with_is_on true s))) as H.
    apply same_cache_with_is_on in H. tauto.
  - split; reflexivity.
Qed.

Lemma turn_off_cache T s :
  _is_on (self (st (turn_off T s))) = false
  /\ _volume (self (st (turn_off T s))) = _volume (self s).
Proof.
  rewrite turn_off_eq.
  pose proof (sp_cache _ _ _ (send_spec T poweroff_frame (with_is_on false s)))
    as H.
  apply same_cache_with_is_on in H. tauto.
Qed.

Lemma set_volume_cache T x s :
  0 <= x <= 255 ->
  _volume (self (st (set_volume T x s))) = Some x
  /\ _is_on (self (st (set_volume T x s))) = _is_on (self s).
Proof.
  intros H. rewrite set_volume_eq by exact H.
  pose proof (sp_cache _ _ _ (send_spec T (volume_frame (x / 5)) s)) as Hc.
  unfold same_cache in Hc. unfold store_volume, with_volume.
  cbn [st self _volume _is_on]. tauto.
Qed.

Lemma set_volume_writes T x s :
  0 <= x <= 255 ->
  out (set_volume T x s) = Return tt
  /\ Forall (eq (with_crc (volume_frame (x / 5))))
       (writes (evs (set_volume T x s))).
Proof.
  intros H. rewrite set_volume_eq by exact H.
  unfold store_volume. cbn [out evs].
  split; apply send_spec.
Qed.



End OperationFacts.

(** ** Float scaling of the volume level *)

Module FloatFacts.

Import SpecFloat PyFloat.

Lemma digits2_bounds m :
  2 ^ (Zpos (digits2_pos m) - 1) <= Zpos m < 2 ^ Zpos (digits2_pos m).
Proof.
  induction m as [p IH|p IH|]; cbn [digits2_pos].
  - rewrite Pos2Z.inj_succ.
    replace (Z.succ (Zpos (digits2_pos p)) - 1)
      with (Z.succ (Zpos (digits2_pos p) - 1)) by lia.
    rewrite !Z.pow_succ_r by lia. lia.
  - rewrite Pos2Z.inj_succ.
    replace (Z.succ (Zpos (digits2_pos p)) - 1)
      with (Z.succ (Zpos (digits2_pos p) - 1)) by lia.
    rewrite !Z.pow_succ_r by lia. lia.
  - cbn. lia.
Qed.

Lemma shifted_step P k r : 0 <= k -> shifted P k r -> shifted P (k + 1) (shr_1 r).
Proof.
  intros Hk (Hm & rem & HP & Hrem & Hflags).
  assert (E2 : 2 ^ (k + 1) = 2 * 2 ^ k) by (rewrite Z.pow_add_r; lia).
  assert (Hpos : 0 < 2 ^ k) by (apply Z.pow_pos_nonneg; lia).
  destruct r as [m r s]. cbn [shr_m shr_r shr_s] in *.
  unfold shifted. rewrite E2.
  destruct m as [|[p|p|]|p]; cbn [shr_1 shr_m shr_r shr_s]; try lia.
  - split; [lia|]. exists rem.
    split; [lia|]. split; [lia|]. intros H0.
    destruct (Hflags H0) as [-> ->]. now split.
  - split; [lia|]. exists (2 ^ k + rem).
    split; [nia|]. split; [lia|]. intros H0. lia.
  - split; [lia|]. exists rem.
    split; [nia|]. split; [lia|]. intros H0.
    destruct (Hflags H0) as [-> ->]. now split.
  - split; [lia|]. exists (2 ^ k + rem).
    split; [lia|]. split; [lia|]. intros H0. lia.
Qed.

Lemma shifted_iter P p : forall k r,
  0 <= k -> shifted P k r -> shifted P (k + Zpos p) (iter_pos shr_1 p r).
Proof.
  induction p as [p IH|p IH|]; intros k r Hk H; cbn [iter_pos].
  - replace (k + Zpos p~1) with (k + 1 + Zpos p + Zpos p) by lia.
    apply IH; [lia|]. apply IH; [lia|]. now apply shifted_step.
  - replace (k + Zpos p~0) with (k + Zpos p + Zpos p) by lia.
    apply IH; [lia|]. now apply IH.
  - now apply shifted_step.
Qed.

Lemma shifted_start P : 0 <= P -> shifted P 0 (shr_record_of_loc P loc_Exact).
Proof.
  intros H. split; [exact H|]. exists 0. cbn. repeat split; lia.
Qed.

(** [shr] from an exact record: the exponent grows by the number of shifts
    performed. *)
Lemma shr_spec P e n :
  0 <= P ->
  exists k r,
    shr (shr_record_of_loc P loc_Exact) e n = (r, e + k)
    /\ k = Z.max n 0 /\ shifted P k r.
Proof.
  intros H. destruct n as [|p|p]; cbn [shr].
  - exists 0, (shr_record_of_loc P loc_Exact). rewrite Z.add_0_r.
    split; [reflexivity|]. split; [reflexivity|]. now apply shifted_start.
  - exists (Zpos p), (iter_pos shr_1 p (shr_record_of_loc P loc_Exact)).
    split; [reflexivity|]. split; [reflexivity|].
    apply (shifted_iter P p 0); [lia|now apply shifted_start].
  - exists 0, (shr_record_of_loc P loc_Exact). rewrite Z.add_0_r.
    split; [reflexivity|]. split; [reflexivity|]. now apply shifted_start.
Qed.

Lemma round_le_cap P k r K :
  0 <= k -> shifted P k r -> P <= K * 2 ^ k ->
  0 <= round_nearest_even (shr_m r) (loc_of_shr_record r) <= K.
Proof.
  intros Hk (Hm & rem & HP & Hrem & Hflags) Hcap.
  assert (Hpos : 0 < 2 ^ k) by (apply Z.pow_pos_nonneg; lia).
  destruct r as [m r s]. cbn [shr_m shr_r shr_s] in *.
  assert (Hlt : rem = 0 \/ m + 1 <= K) by nia.
  assert (Hle : m <= K) by nia.
  destruct r, s; cbn [loc_of_shr_record round_nearest_even];
    try destruct (Z.even m); try lia;
    destruct Hlt as [H0|H1]; try lia;
    destruct (Hflags H0); discriminate.
Qed.


Lemma digits_cap q e :
  e <= 0 -> Zpos q <= 255 * 2 ^ (- e) -> Zpos (digits2_pos q) + e <= 8.
Proof.
  intros He Hq. pose proof (digits2_bounds q) as [Hlo _].
  destruct (Z_le_gt_dec (Zpos (digits2_pos q) + e) 8) as [H|H]; [exact H|].
  exfalso.
  assert (Hpow : 2 ^ (8 - e) <= 2 ^ (Zpos (digits2_pos q) - 1))
    by (apply Z.pow_le_mono_r; lia).
  replace (8 - e) with (8 + - e) in Hpow by lia.
  rewrite Z.pow_add_r in Hpow by lia.
  assert (0 < 2 ^ (- e)) by (apply Z.pow_pos_nonneg; lia).
  change (2 ^ 8) with 256 in Hpow. lia.
Qed.

Lemma Zdigits_cap m e :
  e <= 0 -> 0 <= m <= 255 * 2 ^ (- e) -> Zdigits2 m + e <= 8.
Proof.
  intros He [H0 Hm]. destruct m as [|q|q]; cbn [Zdigits2]; [lia| |lia].
  now apply digits_cap.
Qed.

Lemma fexp_cap d e : e <= 0 -> d + e <= 8 -> fexp prec emax (d + e) <= 0.
Proof. unfold fexp, emin, prec, emax. lia. Qed.

Lemma cap_rescale e k :
  e + k <= 0 -> 0 <= k -> 255 * 2 ^ (- e) = 255 * 2 ^ (- (e + k)) * 2 ^ k.
Proof.
  intros H Hk. replace (- e) with (- (e + k) + k) by lia.
  rewrite Z.pow_add_r by lia. lia.
Qed.

(** Rounding a positive value of at most 255 gives a float of at most
    255. *)
Lemma round_aux_capped mx ex :
  ex <= 0 -> Zpos mx <= 255 * 2 ^ (- ex) ->
  capped (binary_round_aux prec emax false (Zpos mx) ex loc_Exact).
Proof.
  intros Hex Hmx. unfold binary_round_aux, shr_fexp.
  pose proof (Zdigits_cap (Zpos mx) ex Hex (conj (Pos2Z.is_nonneg mx) Hmx))
    as Hd1.
  pose proof (fexp_cap _ _ Hex Hd1) as Hf1.
  destruct (shr_spec (Zpos mx) ex
              (fexp prec emax (Zdigits2 (Zpos mx) + ex) - ex)
              (Pos2Z.is_nonneg mx)) as (k1 & r1 & E1 & Hk1 & S1).
  rewrite E1.
  assert (Hk1' : 0 <= k1) by lia.
  assert (He1 : ex + k1 <= 0) by lia.
  pose proof (round_le_cap (Zpos mx) k1 r1 (255 * 2 ^ (- (ex + k1))) Hk1' S1)
    as Hr.
  rewrite <- cap_rescale in Hr by lia. specialize (Hr Hmx).
  set (m2 := round_nearest_even (shr_m r1) (loc_of_shr_record r1)) in *.
  pose proof (Zdigits_cap m2 (ex + k1) He1 Hr) as Hd2.
  pose proof (fexp_cap _ _ He1 Hd2) as Hf2.
  destruct (shr_spec m2 (ex + k1)
              (fexp prec emax (Zdigits2 m2 + (ex + k1)) - (ex + k1))
              (proj1 Hr)) as (k2 & r2 & E2 & Hk2 & S2).
  rewrite E2.
  assert (Hk2' : 0 <= k2) by lia.
  assert (He2 : ex + k1 + k2 <= 0) by lia.
  destruct S2 as (Hm3 & rem & HP & Hrem & _).
  assert (Hcap3 : shr_m r2 <= 255 * 2 ^ (- (ex + k1 + k2))).
  { rewrite (cap_rescale (ex + k1) k2) in Hr by lia.
    assert (0 < 2 ^ k2) by (apply Z.pow_pos_nonneg; lia). nia. }
  destruct (shr_m r2) as [|m3|m3]; [left; now exists false| |lia].
  right. replace (ex + k1 + k2 <=? emax - prec) with true
    by (symmetry; apply Z.leb_le; unfold emax, prec; lia).
  exists m3, (ex + k1 + k2). repeat split; assumption.
Qed.


Lemma of_int_255 s : of_int 255 s = Run.ret f255 s.
Proof. reflexivity. Qed.

Lemma nonneg_sign sv m e :
  SFleb zero (S754_finite sv m e) = true -> sv = false.
Proof.
  intros H. destruct sv; [|reflexivity].
  unfold SFleb, zero in H. cbn [SFcompare] in H. discriminate H.
Qed.

Lemma valid_mantissa s m e :
  valid_binary prec emax (S754_finite s m e) = true -> Zpos m < 2 ^ 53.
Proof.
  intros Hvalid.
  cbn [valid_binary] in Hvalid. unfold bounded in Hvalid.
  apply andb_true_iff in Hvalid as [Hcanon _].
  unfold canonical_mantissa in Hcanon. apply Z.eqb_eq in Hcanon.
  unfold fexp, emin, prec, emax in Hcanon.
  pose proof (digits2_bounds m) as [_ Hm].
  assert (Hd : Zpos (digits2_pos m) <= 53) by lia.
  eapply Z.lt_le_trans; [exact Hm|]. apply Z.pow_le_mono_r; lia.
Qed.

Lemma not_gt_le m q : Pos.compare_cont Eq m q <> Gt -> (m <= q)%positive.
Proof. intros H. exact H. Qed.

Lemma le_one_cases m e :
  SFleb (S754_finite false m e) one = true ->
  e < -52 \/ (e = -52 /\ (m <= 4503599627370496)%positive).
Proof.
  intros Hhi. unfold SFleb, one in Hhi. cbn [SFcompare] in Hhi.
  destruct (e ?= -52) eqn:E.
  - apply Z.compare_eq in E. right. split; [exact E|].
    apply not_gt_le. intros G. rewrite G in Hhi. discriminate Hhi.
  - left. apply Z.compare_lt_iff. exact E.
  - discriminate Hhi.
Qed.

Lemma unit_finite_bounds sv m e :
  unit_interval (S754_finite sv m e) ->
  sv = false /\ e <= -52 /\ Zpos m <= 2 ^ (- e).
Proof.
  intros (Hvalid & Hlo & Hhi).
  pose proof (nonneg_sign sv m e Hlo) as ->.
  pose proof (valid_mantissa false m e Hvalid) as Hm53.
  split; [reflexivity|].
  destruct (le_one_cases m e Hhi) as [E|[-> C]].
  - split; [apply Z.lt_le_incl; exact E|].
    apply Z.lt_le_incl. eapply Z.lt_le_trans; [exact Hm53|].
    clear Hm53 Hvalid Hlo Hhi.
    apply Z.pow_le_mono_r; lia.
  - split; [apply Z.le_refl|].
    replace (2 ^ (- -52)) with 4503599627370496 by reflexivity.
    exact (Pos2Z.pos_le_pos _ _ C).
Qed.

Lemma scale_bound m e :
  e <= -52 -> Zpos m <= 2 ^ (- e) ->
  Zpos (m * 8972014882652160) <= 255 * 2 ^ (- (e + -45)).
Proof.
  intros He Hme.
  rewrite Pos2Z.inj_mul.
  replace (- (e + -45)) with (- e + 45) by lia.
  rewrite Z.pow_add_r by lia.
  replace (Zpos 8972014882652160) with (255 * 2 ^ 45) by reflexivity.
  set (c := 255 * 2 ^ 45).
  replace (255 * (2 ^ (- e) * 2 ^ 45)) with (c * 2 ^ (- e))
    by (unfold c; rewrite <- Z.mul_assoc, (Z.mul_comm (2 ^ 45)); reflexivity).
  rewrite (Z.mul_comm (Zpos m) c).
  apply Z.mul_le_mono_nonneg_l; [|exact Hme].
  unfold c. apply Z.mul_nonneg_nonneg; [lia|apply Z.pow_nonneg; lia].
Qed.

Lemma mul_unit_capped v : unit_interval v -> capped (mul v f255).
Proof.
  intros H.
  destruct v as [sv|sv| |sv m e].
  - left. exists (xorb sv false). reflexivity.
  - exfalso. destruct H as (_ & Hlo & Hhi).
    destruct sv; [cbv in Hlo; discriminate Hlo|cbv in Hhi; discriminate Hhi].
  - exfalso. destruct H as (_ & Hlo & _). cbv in Hlo. discriminate Hlo.
  - destruct (unit_finite_bounds sv m e H) as (-> & He & Hme).
    unfold mul, f255. cbn [SFmul xorb].
    apply round_aux_capped; [lia|]. now apply scale_bound.
Qed.

Lemma to_int_capped x s :
  capped x ->
  exists n, to_int x s = Run.ret n s /\ 0 <= n <= 255.
Proof.
  intros [[sz ->]|(m & e & -> & He & Hm)].
  - exists 0. split; [reflexivity|lia].
  - exists (Z.shiftl (Zpos m) e). split; [reflexivity|].
    rewrite <- (Z.opp_involutive e) at 1 2.
    rewrite Z.shiftl_opp_r, Z.shiftr_div_pow2 by lia.
    assert (0 < 2 ^ (- e)) by (apply Z.pow_pos_nonneg; lia).
    split; [apply Z.div_pos; lia|].
    apply Z.div_le_upper_bound; lia.
Qed.

Lemma level_units_range v :
  unit_interval v -> 0 <= level_units v <= 255.
Proof.
  intros H. unfold level_units.
  destruct (mul_unit_capped v H) as [[sz ->]|(m & e & -> & He & Hm)]; [lia|].
  cbn [cond_Zopp].
  rewrite <- (Z.opp_involutive e) at 1 2.
  rewrite Z.shiftl_opp_r, Z.shiftr_div_pow2 by lia.
  assert (0 < 2 ^ (- e)) by (apply Z.pow_pos_nonneg; lia).
  split; [apply Z.div_pos; lia|].
  apply Z.div_le_upper_bound; lia.
Qed.

Lemma to_int_level v s :
  unit_interval v -> to_int (mul v f255) s = Run.ret (level_units v) s.
Proof.
  intros H. unfold level_units.
  destruct (mul_unit_capped v H) as [[sz ->]|(m & e & -> & _)]; reflexivity.
Qed.

End FloatFacts.

(** ** The media player handlers *)

Module MediaPlayerFacts.

Import SpecFloat Bytes Ble Run Sinilink Trace Post MediaPlayer.
Import TraceFacts CrcFacts SessionFacts CommandFacts OperationFacts FloatFacts.

Lemma scaled_level v s :
  PyFloat.unit_interval v ->
  scaled v 255 s = Run.ret (PyFloat.level_units v) s.
Proof.
  intros H. unfold scaled, Run.bind. rewrite of_int_255.
  unfold Run.ret at 1. cbv beta iota.
  rewrite (to_int_level v s H). reflexivity.
Qed.

Lemma init_level_in_unit_interval : PyFloat.unit_interval PyFloat.lit_0_2.
Proof. repeat split; vm_compute; reflexivity. Qed.

Lemma init_level_units : PyFloat.level_units PyFloat.lit_0_2 = 51.
Proof. vm_compute. reflexivity. Qed.

Lemma async_mute_volume_eq T mute e s :
  _volume_max e = 255 ->
  PyFloat.unit_interval (_media_volume_level e) ->
  let sent := PyFloat.level_units (_media_volume_level e) * Z.b2z mute in
  async_mute_volume T mute e s
  = let r := set_volume T sent s in
    {| out := Return {| _name := _name e; _muted := mute;
                        _media_volume_level := _media_volume_level e;
                        _volume_max := _volume_max e |};
       st := st r; evs := evs r |}.
Proof.
  intros Hmax Hv sent.
  pose proof (level_units_range _ Hv) as Hn.
  assert (Hs : 0 <= sent <= 255) by (unfold sent; destruct mute; cbn; lia).
  unfold async_mute_volume. rewrite Hmax.
  unfold Run.bind at 1. rewrite (scaled_level _ s Hv).
  unfold Run.ret at 1. cbv beta iota. fold sent.
  unfold Run.bind.
  destruct (set_volume_writes T sent s Hs) as [Ho _].
  destruct (set_volume T sent s) as [o s' ev]. cbn [out] in Ho. subst o.
  cbv beta iota zeta. unfold Run.ret. cbn [out st evs].
  now rewrite !app_nil_r.
Qed.

End MediaPlayerFacts.

(** * The specification, claim by claim *)

Module ReconnectFacts.

Import Bytes Crc Ble Run Sinilink Trace Post Observe Reconnect.
Import TraceFacts CrcFacts SessionFacts CommandFacts OperationFacts.

Lemma connect_reconnect T s : reconnect_post s (connect T s).
Proof.
  destruct s as [[mac dev on vol] clk nh].
  unfold connect. run.
  all: constructor; cbn [out st evs self _device].
  all: try (cbn; lia).
  all: try (intros; discriminate).
  all: try (intros; cbn; repeat split; try reflexivity; lia).
  all: try (intros _; eexists; split; [reflexivity|];
            cbn; repeat split; reflexivity).
  all: try (intros N; now contradiction N).
Qed.

End ReconnectFacts.

Module SendFacts.

Import Bytes Crc Ble Run Sinilink Trace Post Observe Reconnect.
Import TraceFacts CrcFacts SessionFacts CommandFacts OperationFacts.
Import ReconnectFacts.

Lemma first_liveness_app_some l1 l2 b :
  first_liveness l1 = Some b -> first_liveness (l1 ++ l2) = Some b.
Proof.
  induction l1 as [|e l1 IH]; [discriminate|].
  destruct e; cbn [app first_liveness]; auto.
Qed.

Lemma quiet_count p l :
  (forall e, quiet e = true -> p e = false) ->
  forallb quiet l = true -> count p l = 0%nat.
Proof.
  intros Hp. induction l as [|e l IH]; [reflexivity|].
  cbn [forallb]. intros H. apply andb_true_iff in H as [He Hl].
  rewrite count_cons, (Hp e He). now apply IH.
Qed.

Lemma quiet_first l l' :
  forallb quiet l = true -> first_liveness (l ++ l') = first_liveness l'.
Proof.
  induction l as [|e l IH]; [reflexivity|].
  cbn [forallb]. intros H. apply andb_true_iff in H as [He Hl].
  destruct e; try discriminate He. cbn [app first_liveness]. now apply IH.
Qed.

Lemma quiet_connected l : forallb quiet l = true -> connected_ok l = false.
Proof.
  induction l as [|e l IH]; [reflexivity|].
  cbn [forallb]. intros H. apply andb_true_iff in H as [He Hl].
  rewrite connected_ok_cons, (IH Hl).
  destruct e; try discriminate He. unfold quiet in He.
  apply negb_true_iff, orb_false_iff in He as [_ He]. now rewrite He.
Qed.

Lemma quiet_call e : quiet e = true -> is_connect_call e = false.
Proof.
  destruct e; try discriminate. unfold quiet. intros H.
  now apply negb_true_iff, orb_false_iff in H as [H _].
Qed.

Ltac quiet_loud e := destruct e; try discriminate; intros _; reflexivity.

Lemma quiet_write e : quiet e = true -> is_write e = false.
Proof. quiet_loud e. Qed.
Lemma quiet_gatt e : quiet e = true -> is_gatt_connect e = false.
Proof. quiet_loud e. Qed.
Lemma quiet_resolve e : quiet e = true -> is_resolve e = false.
Proof. quiet_loud e. Qed.
Lemma quiet_client e : quiet e = true -> is_new_client e = false.
Proof. quiet_loud e. Qed.
Lemma quiet_close e : quiet e = true -> is_disconnect e = false.
Proof. quiet_loud e. Qed.
Lemma quiet_interaction e : quiet e = true -> is_interaction e = false.
Proof. quiet_loud e. Qed.

Ltac quiet_zero H :=
  pose proof (quiet_count _ _ quiet_call H);
  pose proof (quiet_count _ _ quiet_write H);
  pose proof (quiet_count _ _ quiet_gatt H);
  pose proof (quiet_count _ _ quiet_resolve H);
  pose proof (quiet_count _ _ quiet_client H);
  pose proof (quiet_count _ _ quiet_close H);
  pose proof (quiet_connected _ H).

(** The reconnect failed: nothing is written afterwards. *)
Lemma shape_giveup pre s0 r post :
  connect_post s0 r -> reconnect_post s0 r ->
  _device (self s0) <> None ->
  connected_ok (evs r) = false ->
  forallb quiet pre = true -> forallb quiet post = true ->
  reconnect_shape (Some BleakError) (pre ++ evs r ++ post).
Proof.
  intros [_ _ _ Cw Cc _ Cr] [Rg Rc _ Rf R1] Hd Hk Hpre Hpost.
  specialize (Rf Hk). destruct (R1 Hd) as (b & Hb & Hb').
  pose proof (count_write_nil _ Cw) as Cn.
  quiet_zero Hpre. quiet_zero Hpost.
  unfold reconnect_shape.
  rewrite !count_app, !connected_ok_app, (quiet_first _ _ Hpre),
    (first_liveness_app_some _ post b Hb).
  repeat match goal with H : _ = _ |- _ => rewrite H end.
  cbn [orb Nat.add]. rewrite !Nat.add_0_r.
  repeat split; try assumption; try lia.
  exists b. split; [reflexivity|].
  destruct b; [destruct Hb'; congruence|exact Hb'].
Qed.

(** The reconnect succeeded: one write follows, and nothing was closed. *)
Lemma shape_retry pre s0 r q1 h p a q2 :
  connect_post s0 r -> reconnect_post s0 r ->
  _device (self s0) <> None ->
  connected_ok (evs r) = true ->
  forallb quiet pre = true -> forallb quiet q1 = true ->
  forallb quiet q2 = true ->
  reconnect_shape (Some BleakError)
    (pre ++ evs r ++ q1 ++ EvWrite h p a :: q2).
Proof.
  intros [_ _ _ Cw Cc _ Cr] [Rg Rc Rt _ R1] Hd Hk Hpre H1 H2.
  destruct (Rt Hk) as (Rd & Rg' & Rc'). destruct (R1 Hd) as (b & Hb & Hb').
  pose proof (count_write_nil _ Cw) as Cn.
  quiet_zero Hpre. quiet_zero H1. quiet_zero H2.
  unfold reconnect_shape.
  rewrite ?count_app, ?count_cons, ?connected_ok_app, ?connected_ok_cons,
    (quiet_first _ _ Hpre),
    (first_liveness_app_some _ (q1 ++ EvWrite h p a :: q2) b Hb).
  cbn [is_connect_call is_log is_gatt_connect is_new_client is_resolve
       is_write is_disconnect is_connect_success orb].
  repeat match goal with
         | H : count _ _ = _ |- _ => rewrite H
         | H : connected_ok _ = _ |- _ => rewrite H
         end.
  cbn [orb Nat.add]. rewrite ?Nat.add_0_r.
  repeat split; try lia.
  exists b. split; [reflexivity|].
  destruct b; [split; [reflexivity|apply Hb']|exact Hb'].
Qed.

(** Take a pending [connect] by both of its postconditions. *)
Ltac use_connect_detail :=
  match goal with
  | |- context [connect ?T ?s] =>
      let C := fresh "C" in
      let R := fresh "R" in
      pose proof (connect_spec T s) as C;
      pose proof (connect_reconnect T s) as R;
      use_connect
  end.

Ltac close_shape :=
  match goal with
  | C : connect_post ?s0 {| out := ?o; st := ?s1; evs := ?e |},
    R : reconnect_post ?s0 {| out := ?o; st := ?s1; evs := ?e |}
    |- reconnect_shape _ (?x :: ?e ++ ?y :: EvWrite ?h ?p ?a :: ?q2) =>
      apply (shape_retry [x] s0 {| out := o; st := s1; evs := e |}
               [y] h p a q2 C R);
      [cbn [self _device]; congruence|assumption
      |reflexivity|reflexivity|reflexivity]
  | C : connect_post ?s0 {| out := ?o; st := ?s1; evs := ?e |},
    R : reconnect_post ?s0 {| out := ?o; st := ?s1; evs := ?e |}
    |- reconnect_shape _ (?x :: ?e ++ ?post) =>
      apply (shape_giveup [x] s0 {| out := o; st := s1; evs := e |}
               post C R);
      [cbn [self _device]; congruence|assumption|reflexivity|reflexivity]
  end.

Lemma send_reconnect T data s :
  reconnect_ok (evs (_send T data s)).
Proof.
  destruct s as [[mac dev on vol] clk nh].
  unfold _send. rewrite finalbytes_eq.
  run.
  all: repeat (use_connect_detail; run).
  all: cbn [self _device] in *.
  all: try congruence.
  all: cbn [out st evs]; rewrite ?app_nil_r.
  all: unfold reconnect_ok.
  all: cbn [after_first_write];
    repeat (rewrite after_first_write_app by assumption;
            cbn [after_first_write]).
  all: try (solve_counts; fail).
  all: try reflexivity.
  all: close_shape.
Qed.


Lemma perform_reconnect T op s : reconnect_ok (evs (perform T op s)).
Proof.
  destruct (perform_is_send T op s) as [[_ E]|(frame & s0 & _ & E)];
    rewrite E; [reflexivity|apply send_reconnect].
Qed.

End SendFacts.

Module Claims.

Import Bytes Crc Ble Run Sinilink Trace Post MediaPlayer Observe Reconnect.
Import TraceFacts CrcFacts SessionFacts CommandFacts OperationFacts.
Import FloatFacts MediaPlayerFacts ReconnectFacts SendFacts.

(** C1, as stated, fails: with the amplifier out of range nothing is written,
    yet [turn_on] has switched the cached power state from off to on, and
    [set_volume 100] has replaced the cached volume 0 by 100. *)
Lemma cache_changes_without_delivery :
  delivered (evs (turn_on link_absent (fresh mac0))) = false
  /\ _is_on (self (fresh mac0)) = false
  /\ _is_on (self (st (turn_on link_absent (fresh mac0)))) = true
  /\ delivered (evs (set_volume link_absent 100 (fresh mac0))) = false
  /\ _volume (self (fresh mac0)) = Some 0
  /\ _volume (self (st (set_volume link_absent 100 (fresh mac0)))) = Some 100.
Proof. vm_compute. repeat split; reflexivity. Qed.

(** C1, amended: the cache is written whatever the send does.  On every link
    and from every state, [turn_on] leaves the cached power state on and
    [turn_off] leaves it off, neither touches the cached volume, and
    [set_volume] with an intensity in [0, 255] leaves the cached volume equal
    to that intensity and does not touch the power state. *)
Theorem cache_written_regardless T s x :
  0 <= x <= 255 ->
  _is_on (self (st (turn_on T s))) = true
  /\ _volume (self (st (turn_on T s))) = _volume (self s)
  /\ _is_on (self (st (turn_off T s))) = false
  /\ _volume (self (st (turn_off T s))) = _volume (self s)
  /\ _volume (self (st (set_volume T x s))) = Some x
  /\ _is_on (self (st (set_volume T x s))) = _is_on (self s).
Proof.
  intros H.
  pose proof (turn_on_cache T s). pose proof (turn_off_cache T s).
  pose proof (set_volume_cache T x s H). tauto.
Qed.

Lemma cache_written_regardless_witness :
  0 <= 100 <= 255
  /\ _is_on (self (st (turn_on link_absent (fresh mac0)))) = true
  /\ _volume (self (st (set_volume link_absent 100 (fresh mac0)))) = Some 100.
Proof.
  assert (H : 0 <= 100 <= 255) by lia.
  pose proof (cache_written_regardless link_absent (fresh mac0) 100 H) as W.
  split; [exact H|]. split; [apply W|apply W].
Defined.







(** C4, as stated, fails.  On a link whose first write raises [BleakError]
    while the client stays connected, the reconnect is a call of [connect]
    that returns at once: the frame is written again and delivered, yet
    nothing was torn down, resolved or connected in between.  On a link that
    drops and comes back, the stale client is replaced by a second one and
    never closed.  And a first write that fails with another error than
    [BleakError] is followed by no reconnect and no second write. *)
Lemma reconnect_skips_teardown :
  (let tr := evs (turn_off link_glitch (fresh mac0)) in
   exists rest,
     after_first_write tr = Some (Some BleakError, rest)
     /\ count is_write rest = 1%nat
     /\ delivered rest = true
     /\ count is_disconnect rest = 0%nat
     /\ count is_resolve rest = 0%nat
     /\ count is_gatt_connect rest = 0%nat)
  /\ (let r := turn_off link_flaky (fresh mac0) in
      count is_new_client (evs r) = 2%nat
      /\ count is_disconnect (evs r) = 0%nat
      /\ _device (self (st r)) = Some 1%nat)
  /\ (let tr := evs (turn_off link_write_other (fresh mac0)) in
      exists rest,
        after_first_write tr = Some (Some OtherException, rest)
        /\ count is_connect_call rest = 0%nat
        /\ count is_write rest = 0%nat
        /\ delivered tr = false).
Proof.
  split; [|split].
  - eexists. split; [vm_compute; reflexivity|].
    repeat split; vm_compute; reflexivity.
  - vm_compute. repeat split; reflexivity.
  - eexists. split; [vm_compute; reflexivity|].
    repeat split; vm_compute; reflexivity.
Qed.

(** C4, amended: one command makes at most two write attempts, at most two
    calls of [connect], at most two GATT connection attempts and at most two
    resolutions, on every link and from every state.  After a first write
    that raised [BleakError] there is exactly one call of [connect].  It
    first asks whether the held client is connected; if so it returns at
    once, without resolution; if not it resolves once.  It creates a client
    only after a resolution and connects only a client it created.  When it
    succeeds nothing has been closed, the new client was connected once if
    one was created, and exactly one more write follows; when it fails no
    write follows and at most one client is closed.  After a first write
    that succeeded or raised anything else, nothing touches the stack any
    more: no reconnect and no second write. *)
Theorem command_attempts_bounded T op s :
  let tr := evs (perform T op s) in
  (count is_write tr <= 2)%nat
  /\ (count is_connect_call tr <= 2)%nat
  /\ (count is_gatt_connect tr <= 2)%nat
  /\ (count is_resolve tr <= 2)%nat
  /\ match after_first_write tr with
     | Some (answer, rest) => retry_shape answer rest
     | None => count is_write tr = 0%nat
     end
  /\ reconnect_ok tr.
Proof.
  intros tr. subst tr.
  pose proof (perform_reconnect T op s) as R.
  destruct (perform_is_send T op s) as [[_ E]|(frame & s0 & _ & E)];
    rewrite E in *.
  - repeat split; try exact R; cbn; lia.
  - pose proof (send_spec T frame s0) as [_ _ _ Hw Hc Hg Hr Hs _].
    repeat split; try assumption.
    destruct (after_first_write (evs (_send T frame s0))) as [[a rest]|] eqn:A;
      [exact Hs|now apply no_first_write].
Qed.

(** The bound of C4 is reached: on a link that drops during the first write
    and comes back, [set_volume 100] makes two GATT connections and two
    writes, the second write is delivered, and the device handle is the
    second client. *)
Example flaky_link_retries_once :
  let r := set_volume link_flaky 100 (fresh mac0) in
  count is_write (evs r) = 2%nat
  /\ count is_gatt_connect (evs r) = 2%nat
  /\ count is_connect_call (evs r) = 2%nat
  /\ delivered (evs r) = true
  /\ _device (self (st r)) = Some 1%nat
  /\ _volume (self (st r)) = Some 100.
Proof. vm_compute. repeat split; reflexivity. Qed.

(** When the amplifier is not found nothing is written and the handle stays
    [None]. *)
Example absent_link_writes_nothing :
  let r := turn_on link_absent (fresh mac0) in
  writes (evs r) = [] /\ _device (self (st r)) = None
  /\ count is_connect_call (evs r) = 1%nat
  /\ count is_gatt_connect (evs r) = 0%nat.
Proof. vm_compute. repeat split; reflexivity. Qed.

(** C5, as stated, fails: [turn_on] returns the same value, [None], when the
    frame reaches the amplifier and when the amplifier is not even found. *)
Lemma result_does_not_tell_outcome :
  out (turn_on link_up (fresh mac0)) = out (turn_on link_absent (fresh mac0))
  /\ delivered (evs (turn_on link_up (fresh mac0))) = true
  /\ delivered (evs (turn_on link_absent (fresh mac0))) = false.
Proof. vm_compute. repeat split; reflexivity. Qed.

(** C5, amended: no exception of the BLE stack reaches the caller, and the
    commands return no result.  On every link and from every state, every
    command returns [None] or is stopped by the range check of [to_bytes]
    before it touches the stack; [_send] and [disconnect] return [None];
    [connect] alone returns a boolean. *)
Theorem no_transport_exception_escapes T op s data :
  returns_or_rejects (perform T op s)
  /\ out (_send T data s) = Return tt
  /\ out (disconnect T s) = Return tt
  /\ out (connect T s) = Return (connected_ok (evs (connect T s))).
Proof.
  repeat split.
  - unfold returns_or_rejects.
    destruct (perform_is_send T op s) as [H|(frame & s0 & H & _)];
      [right; exact H|left; exact H].
  - apply send_spec.
  - apply disconnect_spec.
  - apply connect_spec.
Qed.


(** C6: a freshly created instance caches the volume 0, not [None], so its
    first [turn_on] sends bucket 0 and not the default 7: on a working link
    the frame written has command byte 0 and is byte for byte the power-off
    frame.  On every link the frames written are that one. *)
Theorem turn_on_fresh_sends_bucket_zero T mac :
  Forall (eq (with_crc poweroff_frame))
    (writes (evs (turn_on T (fresh mac))))
  /\ writes (evs (turn_on link_up (fresh mac0))) = [with_crc poweroff_frame]
  /\ map command_byte (writes (evs (turn_on link_up (fresh mac0)))) = [0]
  /\ turn_on_bucket (fresh mac) = 0.
Proof.
  split; [|repeat split; vm_compute; reflexivity].
  rewrite (turn_on_eq T (fresh mac) 0) by (reflexivity || lia).
  change (volume_frame (0 / 5)) with poweroff_frame.
  apply (sp_payload _ _ _ (send_spec T poweroff_frame _)).
Qed.

(** The default bucket 7 is what [turn_on] sends when no volume is cached. *)
Lemma turn_on_default_bucket T s :
  _volume (self s) = None ->
  turn_on T s = _send T (volume_frame 7) (with_is_on true s).
Proof.
  intros H.
  destruct (turn_on_cases T s) as [[_ E]|[N _]]; cbv zeta in *;
    unfold turn_on_bucket in *; rewrite H in *; [exact E|lia].
Qed.

(** No command ever empties the cached volume, so that default is never
    used on an instance made by [init]. *)
Lemma volume_always_cached T op s :
  _volume (self s) <> None -> _volume (self (st (perform T op s))) <> None.
Proof.
  intros H. destruct op as [| |x| |]; cbn [perform].
  - now rewrite (proj2 (turn_on_cache T s)).
  - now rewrite (proj2 (turn_off_cache T s)).
  - destruct (set_volume_cases T x s) as [[_ E]|[_ E]]; rewrite E;
      [discriminate|exact H].
  - rewrite aux_eq.
    pose proof (sp_cache _ _ _ (send_spec T aux_literal s)) as (_ & _ & Hv).
    now rewrite Hv.
  - rewrite bluetooth_eq.
    pose proof (sp_cache _ _ _ (send_spec T bluetooth_literal s))
      as (_ & _ & Hv).
    now rewrite Hv.
Qed.



(** C8: when [connect] returns [False] the connection handle is [None];
    and [disconnect], from every state and on every link, returns normally
    and leaves the handle [None], whatever the BLE stack raises while
    closing. *)
Theorem failed_connect_and_disconnect_clear_handle T s :
  (out (connect T s) = Return false ->
   _device (self (st (connect T s))) = None)
  /\ out (disconnect T s) = Return tt
  /\ _device (self (st (disconnect T s))) = None.
Proof.
  pose proof (connect_spec T s) as [Ho Hd _ _ _ _ _].
  pose proof (disconnect_spec T s) as (Hr & Hn & _).
  split; [|split; assumption].
  intros H. rewrite Ho in H. injection H as H. now rewrite H in Hd.
Qed.

Lemma failed_connect_and_disconnect_clear_handle_witness :
  (out (connect link_refused (fresh mac0)) = Return false
   /\ In (EvDisconnect 0%nat (Some OtherException))
        (evs (connect link_refused (fresh mac0)))
   /\ _device (self (st (connect link_refused (fresh mac0)))) = None)
  /\ (let s := st (connect link_close_fails (fresh mac0)) in
      _device (self s) = Some 0%nat
      /\ In (EvDisconnect 0%nat (Some BleakError))
           (evs (disconnect link_close_fails s))
      /\ out (disconnect link_close_fails s) = Return tt
      /\ _device (self (st (disconnect link_close_fails s))) = None).
Proof.
  assert (H : out (connect link_refused (fresh mac0)) = Return false)
    by reflexivity.
  pose proof (failed_connect_and_disconnect_clear_handle link_refused
                (fresh mac0)) as (W1 & _).
  pose proof (failed_connect_and_disconnect_clear_handle link_close_fails
                (st (connect link_close_fails (fresh mac0))))
    as (_ & W2 & W3).
  split.
  - split; [exact H|]. split; [|exact (W1 H)].
    vm_compute. tauto.
  - cbv zeta. split; [reflexivity|]. split; [vm_compute; tauto|].
    split; [exact W2|exact W3].
Defined.




(** C10: for every mute flag and every volume level [v] between 0 and 1, the
    mute handler performs exactly [set_volume(int(v * 255) * int(mute))]:
    with [mute = True] the amplifier is sent the current level, with
    [mute = False] it is sent volume 0.  The cached volume and the frames
    written are those of that volume, and the entity records the flag. *)
Theorem mute_sends_scaled_level T s e mute :
  _volume_max e = 255 ->
  PyFloat.unit_interval (_media_volume_level e) ->
  let n := PyFloat.level_units (_media_volume_level e) in
  let sent := n * Z.b2z mute in
  let r := async_mute_volume T mute e s in
  0 <= n <= 255
  /\ scaled (_media_volume_level e) (_volume_max e) s = Run.ret n s
  /\ sent = (if mute then n else 0)
  /\ evs r = evs (set_volume T sent s)
  /\ st r = st (set_volume T sent s)
  /\ (exists e', out r = Return e' /\ _muted e' = mute
                 /\ _media_volume_level e' = _media_volume_level e)
  /\ _volume (self (st r)) = Some sent
  /\ Forall (eq (with_crc (volume_frame (sent / 5)))) (writes (evs r)).
Proof.
  intros Hmax Hv n sent r.
  pose proof (level_units_range _ Hv) as Hn. fold n in Hn.
  assert (Hsent : sent = if mute then n else 0)
    by (unfold sent; destruct mute; cbn [Z.b2z]; lia).
  assert (Hs : 0 <= sent <= 255) by (rewrite Hsent; destruct mute; lia).
  assert (Hr : r = async_mute_volume T mute e s) by reflexivity.
  rewrite (async_mute_volume_eq T mute e s Hmax Hv) in Hr.
  fold n in Hr. fold sent in Hr. cbv zeta in Hr. clearbody r. subst r.
  cbn [out st evs].
  destruct (set_volume_writes T sent s Hs) as [_ Hw].
  destruct (set_volume_cache T sent s Hs) as [Hc _].
  split; [exact Hn|]. split; [rewrite Hmax; now apply scaled_level|].
  split; [exact Hsent|]. split; [reflexivity|]. split; [reflexivity|].
  split; [eexists; repeat split|]. split; assumption.
Qed.

Lemma mute_sends_scaled_level_witness :
  _volume_max (MediaPlayer.init "amp") = 255
  /\ PyFloat.unit_interval (_media_volume_level (MediaPlayer.init "amp"))
  /\ PyFloat.level_units (_media_volume_level (MediaPlayer.init "amp")) = 51
  /\ map command_byte
       (writes (evs (async_mute_volume link_up true (MediaPlayer.init "amp")
                       (fresh mac0)))) = [10]
  /\ map command_byte
       (writes (evs (async_mute_volume link_up false (MediaPlayer.init "amp")
                       (fresh mac0)))) = [0]
  /\ _volume (self (st (async_mute_volume link_up true
                          (MediaPlayer.init "amp") (fresh mac0))))
     = Some (51 * Z.b2z true).
Proof.
  assert (Hmax : _volume_max (MediaPlayer.init "amp") = 255) by reflexivity.
  pose proof init_level_in_unit_interval as Hv.
  pose proof (mute_sends_scaled_level link_up (fresh mac0)
                (MediaPlayer.init "amp") true Hmax Hv) as W.
  cbv zeta in W. cbn [MediaPlayer.init _media_volume_level] in W.
  rewrite init_level_units in W.
  split; [exact Hmax|]. split; [exact Hv|].
  split; [exact init_level_units|].
  split; [vm_compute; reflexivity|]. split; [vm_compute; reflexivity|].
  apply W.
Defined.

End Claims.

(** * Further properties of the code *)

Module ObserveFacts.

Import Bytes Crc Ble Run Sinilink Trace Post Observe.
Import TraceFacts CrcFacts SessionFacts CommandFacts OperationFacts.

Lemma quot5_range x : 0 <= Z.quot x 5 <= 85 <-> -5 < x < 430.
Proof.
  pose proof (Z.quot_rem' x 5) as E.
  pose proof (Z.rem_bound_abs x 5) as B.
  assert (Hr : Z.abs (Z.rem x 5) < 5) by (apply B; lia).
  destruct (Z_le_dec 0 x) as [Hx|Hx].
  - pose proof (Z.rem_nonneg x 5 ltac:(lia) Hx). lia.
  - pose proof (Z.rem_nonpos x 5 ltac:(lia) ltac:(lia)). lia.
Qed.

(** What a command is, seen from [_send]: rejected before anything happens,
    or one [_send] of a sendable frame from a state with the same handle,
    the same clock and the same cached volume. *)
Lemma perform_cases T op s :
  (exists s1, perform T op s = rejected s1
              /\ _volume (self s1) = _volume (self s)
              /\ _device (self s1) = _device (self s))
  \/ exists frame s0,
       sendable frame
       /\ out (perform T op s) = Return tt
       /\ evs (perform T op s) = evs (_send T frame s0)
       /\ _device (self (st (perform T op s)))
          = _device (self (st (_send T frame s0)))
       /\ _device (self s0) = _device (self s).
Proof.
  destruct op as [| |x| |]; cbn [perform].
  - destruct (turn_on_cases T s) as [[Hb E]|[_ E]]; rewrite E.
    + right. exists (volume_frame (turn_on_bucket s)), (with_is_on true s).
      split; [left; eauto|]. split; [apply send_spec|]. now repeat split.
    + left. exists (with_is_on true s). now repeat split.
  - rewrite turn_off_eq. right.
    exists poweroff_frame, (with_is_on false s).
    split; [left; exists 0; split; [lia|reflexivity]|].
    split; [apply send_spec|]. now repeat split.
  - destruct (set_volume_cases T x s) as [[Hb E]|[_ E]]; rewrite E.
    + right. exists (volume_frame (int_div5 x)), s.
      split; [left; eauto|]. split; [apply send_spec|]. now repeat split.
    + left. exists s. now repeat split.
  - rewrite aux_eq. right. exists aux_literal, s.
    split; [right; now left|]. split; [apply send_spec|]. now repeat split.
  - rewrite bluetooth_eq. right. exists bluetooth_literal, s.
    split; [right; now right|]. split; [apply send_spec|]. now repeat split.
Qed.

(** *** The checksum residue *)

Lemma lsb_byte_self c b : byte_to_Z b = c -> lsb_byte c b = 0.
Proof.
  intros <-. unfold lsb_byte. rewrite Z.lxor_nilpotent. reflexivity.
Qed.

Lemma crc_residue frame : Crc8Maxim (with_crc frame) = 0.
Proof.
  rewrite Crc8Maxim_lsb. unfold with_crc, crc8_maxim_lsb.
  rewrite fold_left_app. rewrite fold_left_cons.
  change (fold_left lsb_byte [] ?x) with x.
  apply lsb_byte_self. rewrite crc_byte_value, Crc8Maxim_lsb. reflexivity.
Qed.

(** *** The additive checksum *)

Lemma byte_sum_app l1 l2 : byte_sum (l1 ++ l2) = byte_sum l1 + byte_sum l2.
Proof.
  unfold byte_sum. induction l1 as [|b l1 IH]; cbn [app fold_right]; lia.
Qed.

Lemma additive_ok_snoc l x c :
  byte_sum l mod 256 = byte_to_Z x -> additive_ok ((l ++ [x]) ++ [c]).
Proof.
  intros H. unfold additive_ok.
  rewrite !length_app. cbn [List.length].
  replace (List.length l + 1 + 1 - 2)%nat with (List.length l) by lia.
  rewrite <- app_assoc.
  rewrite firstn_app, Nat.sub_diag, firstn_all. cbn [firstn].
  rewrite app_nil_r, app_nth2, Nat.sub_diag by lia. exact H.
Qed.

Lemma additive_ok_sendable frame : sendable frame -> additive_ok (with_crc frame).
Proof.
  intros [(b & Hb & ->)|[->| ->]]; unfold with_crc.
  - unfold volume_frame.
    replace ([x7e; x0f; x1d] ++ [byte_of b] ++ repeat x00 10
             ++ [byte_of ((b + 170) mod 256)])
      with (([x7e; x0f; x1d; byte_of b] ++ repeat x00 10)
            ++ [byte_of ((b + 170) mod 256)]) by reflexivity.
    apply additive_ok_snoc.
    rewrite byte_sum_app.
    change (byte_sum (repeat x00 10)) with 0.
    unfold byte_sum. cbn [fold_right].
    change (byte_to_Z x7e) with 126. change (byte_to_Z x0f) with 15.
    change (byte_to_Z x1d) with 29.
    rewrite !byte_of_value by (try apply Z.mod_pos_bound; lia).
    f_equal. lia.
  - exact (additive_ok_snoc [x7e; x05; x16; x00] x99 _ eq_refl).
  - exact (additive_ok_snoc [x7e; x05; x14; x00] x97 _ eq_refl).
Qed.

Lemma perform_writes T op s :
  Forall (fun p => exists frame, sendable frame /\ p = with_crc frame)
    (writes (evs (perform T op s))).
Proof.
  destruct (perform_cases T op s)
    as [(s1 & E & _)|(frame & s0 & Hf & _ & E & _)]; rewrite E.
  - constructor.
  - eapply Forall_impl; [|apply (sp_payload _ _ _ (send_spec T frame s0))].
    intros p <-. eauto.
Qed.

(** *** Deliveries *)

Lemma delivery_le_write l : (count is_delivery l <= count is_write l)%nat.
Proof.
  induction l as [|e l IH]; [reflexivity|].
  rewrite !count_cons. destruct e as [| | | | | |h p [x|]|]; cbn; lia.
Qed.

Lemma delivery_split l :
  count is_delivery l
  = match after_first_write l with
    | None => 0%nat
    | Some (a, rest) =>
        ((match a with None => 1 | Some _ => 0 end) + count is_delivery rest)%nat
    end.
Proof.
  induction l as [|e l IH]; [reflexivity|].
  rewrite count_cons.
  destruct e as [| | | | | |h p [x|]|]; cbn [is_delivery after_first_write];
    rewrite ?IH; reflexivity.
Qed.

End ObserveFacts.

Module LinkFacts.

Import Bytes Crc Ble Run Sinilink Trace Post Observe.
Import TraceFacts CrcFacts SessionFacts CommandFacts OperationFacts ObserveFacts.

Lemma connect_ways_hold T s : connect_ways s (connect T s).
Proof.
  destruct s as [[mac dev on vol] clk nh].
  unfold connect. run.
  all: constructor; cbn [out st evs self _device next_handle].
  all: try (intros; discriminate).
  all: try (cbn; rewrite ?Nat.eqb_refl; reflexivity).
  all: intros.
  all: try (left; repeat split; reflexivity).
  all: try (right; cbn; rewrite ?Nat.eqb_refl; repeat split; reflexivity).
  all: try (cbn; rewrite ?Nat.eqb_refl; repeat split; try lia; try reflexivity;
            intros; try discriminate; fail).
  all: try (eexists; split; [reflexivity|]; cbn; congruence).
Qed.

Lemma writes_checked_app a l1 l2 :
  writes l1 = [] ->
  writes_checked a (l1 ++ l2) = writes_checked (last_liveness a l1) l2.
Proof.
  revert a. induction l1 as [|e l1 IH]; intros a H; [reflexivity|].
  destruct e; cbn [app writes_checked last_liveness writes] in *;
    try apply IH; try exact H; discriminate.
Qed.

Lemma last_liveness_app a l1 l2 :
  last_liveness a (l1 ++ l2) = last_liveness (last_liveness a l1) l2.
Proof.
  revert a. induction l1 as [|e l1 IH]; intros a; [reflexivity|].
  destruct e; cbn [app last_liveness]; apply IH.
Qed.

(** [disconnect], over every answer of the stack. *)
Lemma disconnect_ways T s :
  let r := disconnect T s in
  (count is_disconnect (evs r) <= 1)%nat
  /\ (count is_interaction (evs r) <= 2)%nat
  /\ count is_resolve (evs r) = 0%nat
  /\ count is_new_client (evs r) = 0%nat
  /\ count is_gatt_connect (evs r) = 0%nat
  /\ (_device (self s) = None ->
      count is_interaction (evs r) = 0%nat /\ clock (st r) = clock s).
Proof.
  destruct s as [[mac dev on vol] clk nh].
  unfold disconnect. run.
  all: cbn; repeat split; try lia; intros; try discriminate; reflexivity.
Qed.

(** Take a pending [connect] by its postconditions, the liveness one
    included. *)
Ltac use_connect_live :=
  match goal with
  | |- context [connect ?T ?s] =>
      let W := fresh "W" in
      pose proof (cw_live _ _ (connect_ways_hold T s)) as W;
      use_connect
  end.

Ltac settle_liveness :=
  repeat first
    [ progress cbn [writes_checked last_liveness app]
    | rewrite Nat.eqb_refl
    | rewrite app_nil_r
    | rewrite writes_checked_app by assumption
    | match goal with
      | W : forall a, true = true -> exists h, _ /\ last_liveness a ?e = _
        |- context [last_liveness ?a ?e] =>
          let h := fresh "h" in
          let Hd := fresh "Hd" in
          let Hl := fresh "Hl" in
          destruct (W a eq_refl) as (h & Hd & Hl);
          rewrite Hl; injection Hd as Hd; subst
      end ].

Lemma send_checked T data s :
  writes_checked None (evs (_send T data s)) = true.
Proof.
  destruct s as [[mac dev on vol] clk nh].
  unfold _send. rewrite finalbytes_eq.
  run.
  all: repeat (use_connect_live; run).
  all: try congruence.
  all: cbn [out st evs].
  all: settle_liveness.
  all: try reflexivity.
Qed.



End LinkFacts.

Module PlatformFacts.

Import SpecFloat Bytes Crc Ble Run Sinilink Trace Post Observe MediaPlayer.
Import TraceFacts CrcFacts SessionFacts CommandFacts OperationFacts.
Import FloatFacts MediaPlayerFacts ObserveFacts.

Lemma level_table : forallb Player.level_round_trip below256 = true.
Proof. vm_compute. reflexivity. Qed.

Lemma level_round_trip_ok x :
  0 <= x <= 255 ->
  exists l, Player.div_int x 255 = Return l
            /\ PyFloat.unit_interval l /\ PyFloat.level_units l = x.
Proof.
  intros H.
  assert (Hx : 0 <= x < 256) by lia.
  pose proof (forall_below256 Player.level_round_trip level_table x Hx) as C.
  unfold Player.level_round_trip in C.
  destruct (Player.div_int x 255) as [l|e]; [|discriminate C].
  apply andb_true_iff in C as [C C4]. apply andb_true_iff in C as [C C3].
  apply andb_true_iff in C as [C1 C2]. apply Z.eqb_eq in C4.
  exists l. repeat split; assumption.
Qed.

Lemma cached_volumes_In x : -5 < x < 430 -> In x Player.cached_volumes.
Proof.
  intros H. unfold Player.cached_volumes. apply in_map_iff.
  exists (Z.to_nat (x + 4)). split; [lia|]. apply in_seq. lia.
Qed.

Lemma defined_table :
  forallb Player.level_defined Player.cached_volumes = true.
Proof. vm_compute. reflexivity. Qed.

Lemma level_defined_ok x :
  -5 < x < 430 ->
  exists l, Player.div_int x 255 = Return l
            /\ valid_binary PyFloat.prec PyFloat.emax l = true
            /\ (PyFloat.unit_interval l <-> 0 <= x <= 255).
Proof.
  intros H.
  pose proof defined_table as C. rewrite forallb_forall in C.
  specialize (C x (cached_volumes_In x H)).
  unfold Player.level_defined in C.
  destruct (Player.div_int x 255) as [l|e]; [|discriminate C].
  apply andb_true_iff in C as [C1 C2]. apply Bool.eqb_prop in C2.
  exists l. split; [reflexivity|]. split; [exact C1|].
  unfold PyFloat.unit_interval. split.
  - intros (_ & A & B). rewrite A, B in C2. symmetry in C2.
    apply andb_true_iff in C2 as [C2 C3]. lia.
  - intros R.
    assert (E : (0 <=? x) && (x <=? 255) = true)
      by (apply andb_true_iff; split; lia).
    rewrite E in C2. apply andb_true_iff in C2 as [A B]. now repeat split.
Qed.

Lemma async_set_volume_level_eq T v e s :
  _volume_max e = 255 ->
  PyFloat.unit_interval v ->
  async_set_volume_level T v e s
  = let r := set_volume T (PyFloat.level_units v) s in
    {| out := Return {| _name := _name e; _muted := _muted e;
                        _media_volume_level := v;
                        _volume_max := _volume_max e |};
       st := st r;
       evs := EvLog WARNING "Set volume %s, %s" :: evs r |}.
Proof.
  intros Hmax Hv.
  pose proof (level_units_range _ Hv) as Hn.
  unfold async_set_volume_level. rewrite Hmax.
  unfold Run.bind at 1. rewrite (scaled_level _ s Hv).
  unfold Run.ret at 1. cbv beta iota.
  unfold Run.bind, log, emit.
  destruct (set_volume_writes T (PyFloat.level_units v) s Hn) as [Ho _].
  destruct (set_volume T (PyFloat.level_units v) s) as [o s' ev].
  cbn [out] in Ho. subst o.
  cbv beta iota zeta. unfold Run.ret. cbn [out st evs app].
  now rewrite !app_nil_r.
Qed.

(** *** Python dicts *)

Lemma get_set_same k v d : Config.get k (Config.set k v d) = Some v.
Proof.
  induction d as [|[k' v'] d IH]; cbn [Config.set Config.get].
  - now rewrite String.eqb_refl.
  - destruct (String.eqb k k') eqn:E; cbn [Config.get]; rewrite E;
      [reflexivity|exact IH].
Qed.

Lemma get_set_other k k' v d :
  k <> k' -> Config.get k (Config.set k' v d) = Config.get k d.
Proof.
  intros N. induction d as [|[k2 v2] d IH]; cbn [Config.set Config.get].
  - apply String.eqb_neq in N. now rewrite N.
  - destruct (String.eqb k' k2) eqn:E; cbn [Config.get].
    + apply String.eqb_eq in E. subst k2.
      apply String.eqb_neq in N. now rewrite N.
    + now rewrite IH.
Qed.

Lemma values_set v k v' d :
  In v (Config.values (Config.set k v' d)) -> v = v' \/ In v (Config.values d).
Proof.
  unfold Config.values.
  induction d as [|[k2 v2] d IH]; cbn [Config.set map In].
  - intros [<-|[]]. now left.
  - destruct (String.eqb k k2); cbn [map In fst snd].
    + intros [<-|H]; [now left|right; now right].
    + intros [<-|H]; [right; now left|].
      destruct (IH H) as [->|H']; [now left|right; now right].
Qed.

Lemma set_value_in k v d : In v (Config.values (Config.set k v d)).
Proof.
  unfold Config.values.
  induction d as [|[k2 v2] d IH]; cbn [Config.set map In]; [now left|].
  destruct (String.eqb k k2); cbn [map In snd]; [now left|now right].
Qed.

Lemma choice_values found : forall d v,
  In v (Config.values
          (fold_left (fun d '(mac, name) =>
                        Config.set (name ++ " (" ++ mac ++ ")") mac d)
             found d)) ->
  In v (Config.values d) \/ In v (map fst found).
Proof.
  induction found as [|[mac name] found IH]; intros d v H; [now left|].
  cbn [fold_left] in H. apply IH in H as [H|H].
  - apply values_set in H as [->|H]; [right; now left|now left].
  - right. now right.
Qed.

Lemma discovered_sound devs mac name :
  In (mac, name) (Config.discovered devs) ->
  exists dev, In dev devs /\ Config.info_address dev = mac
              /\ Config.info_name dev = Some name
              /\ String.prefix "Sinilink-APP" name = true.
Proof.
  induction devs as [|dev devs IH]; cbn [Config.discovered In]; [tauto|].
  destruct (Config.info_name dev) as [n|] eqn:N.
  - destruct (Config.advertises_sinilink dev) eqn:A.
    + intros [E|H].
      * injection E as <- <-. exists dev.
        unfold Config.advertises_sinilink in A. rewrite N in A.
        apply andb_true_iff in A as [_ A]. now repeat split; auto.
      * destruct (IH H) as (d & Hd & R). exists d. split; [now right|exact R].
    + intros H. destruct (IH H) as (d & Hd & R).
      exists d. split; [now right|exact R].
  - intros H. destruct (IH H) as (d & Hd & R).
    exists d. split; [now right|exact R].
Qed.

End PlatformFacts.

Module Extras.

Import Bytes Crc Ble Run Sinilink Trace Post Observe.
Import TraceFacts CrcFacts SessionFacts CommandFacts OperationFacts.
Import FloatFacts MediaPlayerFacts ObserveFacts LinkFacts PlatformFacts.
Import MediaPlayer.

(** Every payload any command writes passes the receiver's check: the
    CRC-8/MAXIM of the whole payload, checksum byte included, is 0. *)
Theorem written_payloads_have_zero_residue T op s :
  Forall (fun payload => Crc8Maxim payload = 0)
    (writes (evs (perform T op s))).
Proof.
  eapply Forall_impl; [|apply perform_writes].
  intros p (frame & _ & ->). apply crc_residue.
Qed.

(** In every payload any command writes, the byte before the CRC is the sum
    modulo 256 of the bytes before it: the suffix [volume + 170] of the power
    and volume frames and the last byte of the two source literals are
    additive checksums. *)
Theorem written_payloads_carry_byte_sum T op s :
  Forall additive_ok (writes (evs (perform T op s))).
Proof.
  eapply Forall_impl; [|apply perform_writes].
  intros p (frame & Hf & ->). now apply additive_ok_sendable.
Qed.

Lemma set_volume_window T x s :
  set_volume T x s
  = if (-5 <? x) && (x <? 430)
    then store_volume (Some x) (_send T (volume_frame (Z.quot x 5)) s)
    else rejected s.
Proof.
  pose proof (quot5_range x) as Hq.
  destruct (set_volume_cases T x s) as [[Hb E]|[Hb E]];
    cbv zeta in Hb; unfold int_div5 in *; rewrite E.
  - replace ((-5 <? x) && (x <? 430)) with true; [reflexivity|].
    symmetry. apply andb_true_iff. split; [apply Z.ltb_lt|apply Z.ltb_lt]; lia.
  - destruct ((-5 <? x) && (x <? 430)) eqn:C; [|reflexivity].
    apply andb_true_iff in C as [C1 C2].
    apply Z.ltb_lt in C1, C2. lia.
Qed.


(** [set_volume] accepts exactly the intensities from -4 to 429: it sends
    the frame of bucket [int(intensity / 5)] and then caches the intensity as
    given, negative or above 255 included; any other intensity raises
    [OverflowError] before the BLE stack is touched and changes nothing. *)
Theorem set_volume_accepts T x s :
  set_volume T x s
  = if (-5 <? x) && (x <? 430)
    then store_volume (Some x) (_send T (volume_frame (Z.quot x 5)) s)
    else rejected s.
Proof.
  destruct (Z.ltb_spec (-5) x) as [Hlo|Hlo];
    destruct (Z.ltb_spec x 430) as [Hhi|Hhi]; cbn [andb];
    pose proof (quot5_range x) as Hq;
    destruct (set_volume_cases T x s) as [[Hb E]|[Hb E]];
    cbv zeta in Hb; unfold int_div5 in *; rewrite E;
    try reflexivity; exfalso; lia.
Qed.

Lemma perform_keeps_range T op s :
  volume_in_range s -> volume_in_range (st (perform T op s)).
Proof.
  intros (v & Hv & Hr). destruct op as [| |x| |]; cbn [perform].
  - exists v. now rewrite (proj2 (turn_on_cache T s)).
  - exists v. now rewrite (proj2 (turn_off_cache T s)).
  - rewrite set_volume_window.
    destruct ((-5 <? x) && (x <? 430)) eqn:C.
    + apply andb_true_iff in C as [C1 C2]. apply Z.ltb_lt in C1, C2.
      exists x. split; [reflexivity|lia].
    + exists v. now split.
  - rewrite aux_eq. exists v.
    pose proof (sp_cache _ _ _ (send_spec T aux_literal s)) as (_ & _ & E).
    now rewrite E.
  - rewrite bluetooth_eq. exists v.
    pose proof (sp_cache _ _ _ (send_spec T bluetooth_literal s))
      as (_ & _ & E).
    now rewrite E.
Qed.

Lemma run_ops_keeps_range T ops : forall s,
  volume_in_range s -> volume_in_range (run_ops T ops s).
Proof.
  induction ops as [|op ops IH]; intros s H; [exact H|].
  cbn [run_ops]. now apply IH, perform_keeps_range.
Qed.

Lemma turn_on_returns T s : volume_in_range s -> out (turn_on T s) = Return tt.
Proof.
  intros (v & Hv & Hr).
  destruct (turn_on_cases T s) as [[_ E]|[Hn _]].
  - rewrite E. apply send_spec.
  - exfalso. apply Hn. unfold turn_on_bucket, int_div5. rewrite Hv.
    now apply quot5_range.
Qed.

(** After any sequence of commands on a new instance, accepted or rejected,
    delivered or not, the cached volume is still one that fits a frame, and
    [turn_on], [turn_off], [aux] and [bluetooth] return normally: only
    [set_volume] can be rejected. *)
Theorem only_set_volume_can_be_rejected T mac ops :
  let s := run_ops T ops (fresh mac) in
  volume_in_range s
  /\ out (turn_on T s) = Return tt
  /\ out (turn_off T s) = Return tt
  /\ out (aux T s) = Return tt
  /\ out (bluetooth T s) = Return tt.
Proof.
  intros s.
  assert (H : volume_in_range s).
  { apply run_ops_keeps_range. exists 0. split; [reflexivity|lia]. }
  split; [exact H|]. split; [now apply turn_on_returns|].
  rewrite turn_off_eq, aux_eq, bluetooth_eq.
  repeat split; apply send_spec.
Qed.

(** [connect] reports success in two ways only: the handle still reported
    connected, and then nothing else was asked of the stack and the handle
    is kept; or the address was resolved once, one new client was created,
    its single GATT connection succeeded, and that client is the handle.  It
    never opens a connection on any other client. *)
Theorem connect_succeeds_two_ways T s :
  out (connect T s) = Return true ->
  let r := connect T s in
  ((_device (self (st r)) = _device (self s)
    /\ count is_new_client (evs r) = 0%nat
    /\ count is_resolve (evs r) = 0%nat
    /\ count is_gatt_connect (evs r) = 0%nat
    /\ count is_disconnect (evs r) = 0%nat)
   \/ (_device (self (st r)) = Some (next_handle s)
       /\ count is_new_client (evs r) = 1%nat
       /\ count is_resolve (evs r) = 1%nat
       /\ count (is_connect_ok_of (next_handle s)) (evs r) = 1%nat
       /\ count is_disconnect (evs r) = 0%nat))
  /\ existsb (opens_other (next_handle s)) (evs r) = false.
Proof.
  intros H r. subst r.
  pose proof (connect_ways_hold T s) as [Wt _ Wo _].
  rewrite (cp_out _ _ (connect_spec T s)) in H. injection H as H.
  split; [exact (Wt H)|exact Wo].
Qed.

Lemma connect_succeeds_two_ways_witness :
  out (connect link_up (fresh mac0)) = Return true
  /\ _device (self (st (connect link_up (fresh mac0)))) = Some 0%nat
  /\ count is_new_client (evs (connect link_up (fresh mac0))) = 1%nat.
Proof.
  assert (H : out (connect link_up (fresh mac0)) = Return true)
    by reflexivity.
  pose proof (connect_succeeds_two_ways link_up (fresh mac0) H) as [W _].
  split; [exact H|].
  destruct W as [(_ & W & _)|(W1 & W2 & _)]; [discriminate W|].
  split; [exact W1|exact W2].
Defined.

(** When [connect] has created a client and then reports failure, it has
    called [disconnect] on that client exactly once, whatever that call
    raised, and on no other client; it creates at most one client. *)
Theorem failed_connect_closes_its_client T s :
  out (connect T s) = Return false ->
  count is_new_client (evs (connect T s)) = 1%nat ->
  count is_disconnect (evs (connect T s)) = 1%nat
  /\ count (is_disconnect_of (next_handle s)) (evs (connect T s)) = 1%nat.
Proof.
  intros H N.
  pose proof (connect_ways_hold T s) as [_ Wf _ _].
  rewrite (cp_out _ _ (connect_spec T s)) in H. injection H as H.
  exact (proj2 (Wf H) N).
Qed.

Lemma failed_connect_closes_its_client_witness :
  out (connect link_refused (fresh mac0)) = Return false
  /\ count is_new_client (evs (connect link_refused (fresh mac0))) = 1%nat
  /\ count is_disconnect (evs (connect link_refused (fresh mac0))) = 1%nat.
Proof.
  assert (H : out (connect link_refused (fresh mac0)) = Return false)
    by reflexivity.
  assert (N : count is_new_client (evs (connect link_refused (fresh mac0)))
              = 1%nat) by reflexivity.
  split; [exact H|]. split; [exact N|].
  exact (proj1 (failed_connect_closes_its_client link_refused (fresh mac0)
                  H N)).
Defined.

(** [disconnect] asks the stack at most two things, a liveness query and one
    close; it never resolves, creates a client, connects or writes.  A second
    [disconnect] right after it does not touch the stack at all. *)
Theorem disconnect_twice_is_silent T s :
  let r1 := disconnect T s in
  let r2 := disconnect T (st r1) in
  (count is_disconnect (evs r1) <= 1)%nat
  /\ (count is_interaction (evs r1) <= 2)%nat
  /\ count is_resolve (evs r1) = 0%nat
  /\ count is_new_client (evs r1) = 0%nat
  /\ count is_gatt_connect (evs r1) = 0%nat
  /\ writes (evs r1) = []
  /\ out r2 = Return tt
  /\ count is_interaction (evs r2) = 0%nat
  /\ clock (st r2) = clock (st r1).
Proof.
  intros r1 r2.
  pose proof (disconnect_ways T s) as (H1 & H2 & H3 & H4 & H5 & _).
  pose proof (disconnect_spec T s) as (_ & Hn & _ & Hw).
  pose proof (disconnect_ways T (st r1)) as (_ & _ & _ & _ & _ & H6).
  pose proof (disconnect_spec T (st r1)) as (Ho & _).
  destruct (H6 Hn) as [H7 H8].
  repeat split; assumption.
Qed.

(** No command delivers its frame twice: at most one write of a command
    returns without error. *)
Theorem at_most_one_delivery T op s :
  (count is_delivery (evs (perform T op s)) <= 1)%nat.
Proof.
  destruct (perform_cases T op s)
    as [(s1 & E & _)|(frame & s0 & _ & _ & E & _)]; rewrite E.
  - cbn. lia.
  - rewrite delivery_split.
    pose proof (sp_retry _ _ _ (send_spec T frame s0)) as R.
    destruct (after_first_write (evs (_send T frame s0))) as [[a rest]|];
      [|lia].
    pose proof (delivery_le_write rest) as L.
    unfold retry_shape in R.
    destruct a as [[| | | |]|]; destruct R as (_ & _ & _ & R);
      try (destruct (connected_ok rest)); lia.
Qed.

(** Every write of every command goes to the client that the most recent
    liveness answer of the stack reported connected: nothing is written to a
    client not seen alive just before. *)
Theorem writes_go_to_live_client T op s :
  writes_checked None (evs (perform T op s)) = true.
Proof.
  destruct (perform_cases T op s)
    as [(s1 & E & _)|(frame & s0 & _ & _ & E & _)]; rewrite E.
  - reflexivity.
  - apply send_checked.
Qed.

(** A command that returns without having attempted a write leaves the
    session without a handle: the connection could not be established and
    the half-open client was discarded. *)
Theorem no_write_means_no_handle T op s :
  out (perform T op s) = Return tt ->
  count is_write (evs (perform T op s)) = 0%nat ->
  _device (self (st (perform T op s))) = None.
Proof.
  intros Ho Hw.
  destruct (perform_cases T op s)
    as [(s1 & E & _)|(frame & s0 & _ & _ & E & Ed & _)].
  - rewrite E in Ho. discriminate Ho.
  - rewrite Ed. apply (sp_lost _ _ _ (send_spec T frame s0)).
    now rewrite <- E.
Qed.

Lemma no_write_means_no_handle_witness :
  out (perform link_refused TurnOff (fresh mac0)) = Return tt
  /\ count is_write (evs (perform link_refused TurnOff (fresh mac0))) = 0%nat
  /\ _device (self (st (perform link_refused TurnOff (fresh mac0)))) = None.
Proof.
  assert (Ho : out (perform link_refused TurnOff (fresh mac0)) = Return tt)
    by (vm_compute; reflexivity).
  assert (Hw : count is_write (evs (perform link_refused TurnOff (fresh mac0)))
               = 0%nat) by (vm_compute; reflexivity).
  split; [exact Ho|]. split; [exact Hw|].
  exact (no_write_means_no_handle link_refused TurnOff (fresh mac0) Ho Hw).
Defined.



(** [discover()] returns, in scan order, exactly the scanned devices whose
    name starts with Sinilink-APP, provided every scanned device has a name;
    a single device without a name, Sinilink or not, makes it raise
    [AttributeError]; an error of the scan itself is passed on. *)
Theorem discover_needs_every_name devices e :
  fst (Discovery.discover (Return devices))
  = (if forallb Discovery.has_name devices
     then Return (filter Discovery.is_sinilink devices)
     else Raise AttributeError)
  /\ fst (Discovery.discover (Raise e)) = Raise e.
Proof.
  split; [|reflexivity]. cbn [Discovery.discover fst].
  induction devices as [|d devices IH]; [reflexivity|].
  cbn [Discovery.keep_sinilink forallb filter].
  unfold Discovery.has_name at 1, Discovery.is_sinilink at 1.
  destruct (Discovery.scan_name d) as [name|]; [|reflexivity].
  rewrite IH. cbn [andb].
  destruct (forallb Discovery.has_name devices); [|reflexivity].
  now destruct (Discovery.startswith name "Sinilink-APP").
Qed.

(** For a volume level [v] between 0 and 1, [async_set_volume_level] logs,
    performs exactly [set_volume(int(v * 255))] with a value between 0 and
    255, and records [v] as the level of the entity: the cached volume of
    the amplifier is that value and every frame written carries its
    bucket. *)
Theorem set_volume_level_sends_scaled T v e s :
  _volume_max e = 255 ->
  PyFloat.unit_interval v ->
  let n := PyFloat.level_units v in
  let r := async_set_volume_level T v e s in
  0 <= n <= 255
  /\ evs r = EvLog WARNING "Set volume %s, %s" :: evs (set_volume T n s)
  /\ (exists e', out r = Return e' /\ _media_volume_level e' = v
                 /\ _muted e' = _muted e)
  /\ _volume (self (st r)) = Some n
  /\ Forall (eq (with_crc (volume_frame (n / 5)))) (writes (evs r)).
Proof.
  intros Hmax Hv n r.
  pose proof (level_units_range _ Hv) as Hn. fold n in Hn.
  assert (Hr : r = async_set_volume_level T v e s) by reflexivity.
  rewrite (async_set_volume_level_eq T v e s Hmax Hv) in Hr.
  fold n in Hr. cbv zeta in Hr. clearbody r. subst r. cbn [out st evs].
  destruct (set_volume_writes T n s Hn) as [_ Hw].
  destruct (set_volume_cache T n s Hn) as [Hc _].
  split; [exact Hn|]. split; [reflexivity|].
  split; [eexists; repeat split|]. split; [exact Hc|exact Hw].
Qed.

Lemma set_volume_level_sends_scaled_witness :
  _volume_max (MediaPlayer.init "amp") = 255
  /\ PyFloat.unit_interval PyFloat.lit_0_2
  /\ _volume (self (st (async_set_volume_level link_up PyFloat.lit_0_2
                          (MediaPlayer.init "amp") (fresh mac0))))
     = Some 51.
Proof.
  assert (Hmax : _volume_max (MediaPlayer.init "amp") = 255) by reflexivity.
  pose proof init_level_in_unit_interval as Hv.
  pose proof (set_volume_level_sends_scaled link_up PyFloat.lit_0_2
                (MediaPlayer.init "amp") (fresh mac0) Hmax Hv) as W.
  cbv zeta in W. rewrite init_level_units in W.
  split; [exact Hmax|]. split; [exact Hv|]. apply W.
Defined.

(** [update()] and the mute handler agree on the scale: for a cached volume
    [x] between 0 and 255, [update()] returns [True] and stores a level
    between 0 and 1 with [int(level * 255) = x], so muting after it sends the
    amplifier the volume [x] again. *)
Theorem update_restores_level amp p x :
  0 <= x <= 255 ->
  _volume amp = Some x ->
  _volume_max (Player.core p) = 255 ->
  exists l,
    Player.update amp p
    = (Return true,
       Player.with_level l (Player.with_state (Player.state amp) p))
    /\ PyFloat.unit_interval l
    /\ PyFloat.level_units l = x
    /\ forall T s,
         evs (async_mute_volume T true
                (Player.core (snd (Player.update amp p))) s)
         = evs (set_volume T x s).
Proof.
  intros Hx Hv Hmax.
  destruct (level_round_trip_ok x Hx) as (l & Hd & Hu & Hl).
  exists l.
  assert (E : Player.update amp p
              = (Return true,
                 Player.with_level l
                   (Player.with_state (Player.state amp) p))).
  { unfold Player.update. rewrite Hv.
    cbn [Player.with_state Player.core]. rewrite Hmax, Hd. reflexivity. }
  split; [exact E|]. split; [exact Hu|]. split; [exact Hl|].
  intros T s. rewrite E. cbn [snd Player.with_level Player.core].
  rewrite async_mute_volume_eq; cbn [_volume_max _media_volume_level];
    [|exact Hmax|exact Hu].
  cbv zeta. cbn [evs]. rewrite Hl.
  now rewrite Z.mul_1_r.
Qed.

Lemma update_restores_level_witness :
  0 <= 100 <= 255
  /\ exists l,
       Player.update
         {| _mac := mac0; _device := None; _is_on := true;
            _volume := Some 100 |}
         (fst (Player.create "amp" mac0))
       = (Return true,
          Player.with_level l
            (Player.with_state Player.STATE_ON
               (fst (Player.create "amp" mac0))))
       /\ PyFloat.level_units l = 100.
Proof.
  assert (Hx : 0 <= 100 <= 255) by lia.
  destruct (update_restores_level
              {| _mac := mac0; _device := None; _is_on := true;
                 _volume := Some 100 |}
              (fst (Player.create "amp" mac0)) 100 Hx eq_refl eq_refl)
    as (l & E & _ & Hl & _).
  split; [exact Hx|]. exists l. split; [exact E|exact Hl].
Defined.

(** Unmuting sends volume 0 and caches it, so the next [turn_on] restores
    bucket 0: every frame it writes is the power-off frame. *)
Theorem unmute_zeroes_power_on_volume T s e :
  _volume_max e = 255 ->
  PyFloat.unit_interval (_media_volume_level e) ->
  let r := async_mute_volume T false e s in
  _volume (self (st r)) = Some 0
  /\ out (turn_on T (st r)) = Return tt
  /\ Forall (eq (with_crc poweroff_frame)) (writes (evs (turn_on T (st r)))).
Proof.
  intros Hmax Hv r.
  assert (Hr : r = async_mute_volume T false e s) by reflexivity.
  rewrite (async_mute_volume_eq T false e s Hmax Hv) in Hr.
  cbv zeta in Hr. cbn [Z.b2z] in Hr. rewrite Z.mul_0_r in Hr.
  clearbody r. subst r. cbn [st].
  assert (H0 : 0 <= 0 <= 255) by lia.
  destruct (set_volume_cache T 0 s H0) as [Hc _].
  split; [exact Hc|].
  rewrite (turn_on_eq T _ 0 Hc H0).
  change (volume_frame (0 / 5)) with poweroff_frame.
  split; apply send_spec.
Qed.

Lemma unmute_zeroes_power_on_volume_witness :
  _volume_max (MediaPlayer.init "amp") = 255
  /\ PyFloat.unit_interval (_media_volume_level (MediaPlayer.init "amp"))
  /\ _volume (self (st (async_mute_volume link_up false
                          (MediaPlayer.init "amp") (fresh mac0)))) = Some 0.
Proof.
  assert (Hmax : _volume_max (MediaPlayer.init "amp") = 255) by reflexivity.
  pose proof init_level_in_unit_interval as Hv.
  split; [exact Hmax|]. split; [exact Hv|].
  exact (proj1 (unmute_zeroes_power_on_volume link_up (fresh mac0)
                  (MediaPlayer.init "amp") Hmax Hv)).
Defined.


(** The form of the user step offers only the entry for manual input and
    addresses of advertised devices whose name starts with Sinilink-APP;
    the entry for manual input is always offered. *)
Theorem user_form_offers_sinilink_devices CN CM devs choices text :
  Config.async_step_user CN CM devs None = Config.ShowUserForm choices text ->
  In "manual"%string choices
  /\ forall mac, In mac choices ->
       mac = "manual"%string
       \/ exists dev name,
            In dev devs /\ Config.info_address dev = mac
            /\ Config.info_name dev = Some name
            /\ String.prefix "Sinilink-APP" name = true.
Proof.
  unfold Config.async_step_user, Config.async_step_manual.
  destruct (Config.non_empty (Config.discovered devs)); [|discriminate].
  intros E. injection E as <- _. unfold Config.device_choices.
  split; [apply set_value_in|].
  intros mac H. apply values_set in H as [->|H]; [now left|].
  apply choice_values in H as [[]|H]. right.
  apply in_map_iff in H as ([mac' name] & <- & H). cbn [fst].
  destruct (discovered_sound devs mac' name H) as (dev & R).
  exists dev, name. exact R.
Qed.

Lemma user_form_offers_sinilink_devices_witness :
  Config.async_step_user "name" "mac"
    [{| Config.info_address := mac0;
        Config.info_name := Some "Sinilink-APP-1"%string |};
     {| Config.info_address := "11:22:33:44:55:66";
        Config.info_name := None |}] None
  = Config.ShowUserForm [mac0; "manual"%string]
      ("Sinilink-APP-1 (AA:BB:CC:DD:EE:FF)" ++ String "010" "Enter MAC manually")
  /\ In "manual"%string [mac0; "manual"%string].
Proof.
  assert (E : Config.async_step_user "name" "mac"
                [{| Config.info_address := mac0;
                    Config.info_name := Some "Sinilink-APP-1"%string |};
                 {| Config.info_address := "11:22:33:44:55:66";
                    Config.info_name := None |}] None
              = Config.ShowUserForm [mac0; "manual"%string]
                  ("Sinilink-APP-1 (AA:BB:CC:DD:EE:FF)"
                   ++ String "010" "Enter MAC manually")) by reflexivity.
  split; [exact E|].
  exact (proj1 (user_form_offers_sinilink_devices _ _ _ _ _ E)).
Defined.

(** The choice of manual input is honoured only while a Sinilink device is
    still advertised when the form is submitted: then the manual form is
    shown; when none is advertised any more, the flow creates an entry whose
    MAC address is the word manual. *)
Theorem manual_choice_needs_visible_device CN CM devs input :
  Config.get CM input = Some "manual"%string ->
  Config.async_step_user CN CM devs (Some input)
  = (if Config.non_empty (Config.discovered devs)
     then Config.ShowManualForm
     else Config.create_entry CN CM input)
  /\ exists title data,
       Config.create_entry CN CM input = Config.CreateEntry title data
       /\ Config.get CM data = Some "manual"%string.
Proof.
  intros H. unfold Config.async_step_user, Config.async_step_manual.
  rewrite H. cbn [Config.is_manual String.eqb Ascii.eqb Bool.eqb andb].
  rewrite andb_true_r. split; [reflexivity|].
  unfold Config.create_entry. rewrite H.
  eexists _, _. split; [reflexivity|apply get_set_same].
Qed.

Lemma manual_choice_needs_visible_device_witness :
  Config.get "mac" [("mac", "manual")]%string = Some "manual"%string
  /\ Config.async_step_user "name" "mac" [] (Some [("mac", "manual")]%string)
     = Config.CreateEntry "manual"
         [("name", ""); ("mac", "manual")]%string.
Proof.
  assert (H : Config.get "mac" [("mac", "manual")]%string
              = Some "manual"%string) by reflexivity.
  split; [exact H|].
  exact (eq_trans
           (proj1 (manual_choice_needs_visible_device "name" "mac" []
                     [("mac", "manual")]%string H))
           eq_refl).
Defined.

Lemma create_entry_sets_up CN CM input title data :
  CN <> CM ->
  Config.create_entry CN CM input = Config.CreateEntry title data ->
  exists mac,
    Config.get CM input = Some mac
    /\ let name := match Config.get CN input with
                   | Some name => name
                   | None => ""%string
                   end in
       Config.async_setup_entry CN CM data = inr (Player.create name mac)
       /\ title = (if String.eqb name "" then mac else name).
Proof.
  intros N. unfold Config.create_entry.
  destruct (Config.get CM input) as [mac|]; [|discriminate].
  intros E. exists mac. split; [reflexivity|].
  set (name := match Config.get CN input with
               | Some name => name
               | None => ""%string
               end).
  assert (Hd : data = Config.set CM mac (Config.set CN name []))
    by (injection E as _ <-; reflexivity).
  assert (Ht : title = if String.eqb name "" then mac else name)
    by (injection E as <- _; unfold name;
        destruct (Config.get CN input); reflexivity).
  clear E. subst data. cbv zeta. unfold Config.async_setup_entry.
  rewrite get_set_same, get_set_other, get_set_same by exact N.
  split; [reflexivity|exact Ht].
Qed.

(** Every entry the flow creates, in the user step or in the manual step,
    can be set up, and the default name of [async_setup_entry] is never used
    for it: the flow always stores a name, the empty string when none was
    entered, and the entity gets that name and an instance for the entered
    address.  The title is the name, or the address when the name is empty
    or missing. *)
Theorem flow_entries_set_up CN CM devs user_input title data :
  CN <> CM ->
  Config.async_step_user CN CM devs user_input
  = Config.CreateEntry title data
  \/ Config.async_step_manual CN CM user_input
     = Config.CreateEntry title data ->
  exists input mac,
    user_input = Some input
    /\ Config.get CM input = Some mac
    /\ let name := match Config.get CN input with
                   | Some name => name
                   | None => ""%string
                   end in
       Config.async_setup_entry CN CM data = inr (Player.create name mac)
       /\ title = (if String.eqb name "" then mac else name).
Proof.
  intros N H.
  assert (E : exists input, user_input = Some input
              /\ Config.create_entry CN CM input
                 = Config.CreateEntry title data).
  { destruct user_input as [input|].
    - exists input. split; [reflexivity|]. destruct H as [H|H]; [|exact H].
      unfold Config.async_step_user, Config.async_step_manual in H.
      destruct (Config.non_empty (Config.discovered devs)
                && Config.is_manual (Config.get CM input));
        [discriminate H|exact H].
    - exfalso. destruct H as [H|H]; [|discriminate H].
      unfold Config.async_step_user, Config.async_step_manual in H.
      destruct (Config.non_empty (Config.discovered devs)); discriminate H. }
  destruct E as (input & -> & E).
  destruct (create_entry_sets_up CN CM input title data N E) as (mac & R).
  exists input, mac. split; [reflexivity|exact R].
Qed.

Lemma flow_entries_set_up_witness :
  "name"%string <> "mac"%string
  /\ Config.async_setup_entry "name" "mac"
       [("name", ""); ("mac", mac0)]%string
     = inr (Player.create "" mac0).
Proof.
  assert (N : "name"%string <> "mac"%string) by discriminate.
  assert (E : Config.async_step_user "name" "mac" []
                (Some [("mac", mac0)]%string)
              = Config.CreateEntry mac0 [("name", ""); ("mac", mac0)]%string)
    by reflexivity.
  destruct (flow_entries_set_up "name" "mac" _ _ _ _ N (or_introl E))
    as (input & mac & Hi & Hm & W & _).
  split; [exact N|].
  injection Hi as <-. injection Hm as <-. exact W.
Defined.

(** Whatever commands were sent before, over whatever link, [update()] on
    the resulting amplifier returns [True]: a volume is always cached and
    its quotient by 255 is a well-formed float.  The level it stores lies
    between 0 and 1 exactly when the cached volume is between 0 and 255;
    [set_volume] itself also accepts 256 to 429 and -4 to -1, whose levels
    fall outside. *)
Theorem update_never_raises T mac ops p :
  _volume_max (Player.core p) = 255 ->
  let amp := self (run_ops T ops (fresh mac)) in
  exists v l,
    _volume amp = Some v
    /\ Player.update amp p
       = (Return true,
          Player.with_level l (Player.with_state (Player.state amp) p))
    /\ (PyFloat.unit_interval l <-> 0 <= v <= 255).
Proof.
  intros Hmax amp.
  assert (R : volume_in_range (run_ops T ops (fresh mac))).
  { apply run_ops_keeps_range. exists 0. split; [reflexivity|lia]. }
  destruct R as (v & Hv & Hr). fold amp in Hv.
  destruct (level_defined_ok v Hr) as (l & Hd & _ & Hu).
  exists v, l. split; [exact Hv|]. split; [|exact Hu].
  unfold Player.update. rewrite Hv.
  cbn [Player.with_state Player.core]. rewrite Hmax, Hd. reflexivity.
Qed.

Lemma update_never_raises_witness :
  _volume_max (Player.core (fst (Player.create "amp" mac0))) = 255
  /\ fst (Player.update
            (self (run_ops link_up [SetVolume 300; TurnOn] (fresh mac0)))
            (fst (Player.create "amp" mac0)))
     = Return true.
Proof.
  assert (Hmax : _volume_max (Player.core (fst (Player.create "amp" mac0)))
                 = 255) by reflexivity.
  destruct (update_never_raises link_up mac0 [SetVolume 300; TurnOn]
              (fst (Player.create "amp" mac0)) Hmax) as (v & l & _ & E & _).
  split; [exact Hmax|]. rewrite E. reflexivity.
Defined.

(** A YAML configuration without a name makes [setup_platform] raise
    [KeyError], although the same data sets up through a config entry with
    the default name Sinilink Amplifier. *)
Theorem yaml_without_name_fails CN CM config mac :
  Config.get CN config = None ->
  Config.get CM config = Some mac ->
  Config.setup_platform CN CM config = inl (Config.KeyError CN)
  /\ Config.async_setup_entry CN CM config
     = inr (Player.create "Sinilink Amplifier" mac).
Proof.
  intros Hn Hm. unfold Config.setup_platform, Config.async_setup_entry.
  now rewrite Hn, Hm.
Qed.

Lemma yaml_without_name_fails_witness :
  Config.get "name" [("mac", mac0)]%string = None
  /\ Config.setup_platform "name" "mac" [("mac", mac0)]%string
     = inl (Config.KeyError "name").
Proof.
  assert (Hn : Config.get "name" [("mac", mac0)]%string = None)
    by reflexivity.
  assert (Hm : Config.get "mac" [("mac", mac0)]%string = Some mac0)
    by reflexivity.
  split; [exact Hn|].
  exact (proj1 (yaml_without_name_fails "name" "mac" _ _ Hn Hm)).
Defined.

End Extras.
